(** * SimProp-Sirente: the propagation engine, embedded and verified

    Shallow embedding of
      - [examples/evolveProtons.cpp]      (class [Evolutor]),
      - [src/energyLosses/PairProductionLosses.cpp],
      - [src/simprop.cpp]                 ([DoPropagate], [Evolve], [SimProp::run]).

    Numbers.  A C++ [double] is read as a real number: [+], [-], [*], [/]
    are the field operations of [R], [std::fabs] is [Rabs], [std::log] is
    [ln], [std::exp] is [exp], and a comparison is decided on [R].  Rounding,
    infinities and NaN are outside this reading.  Statements that would
    otherwise lean on the value [R] gives to a division by zero carry the
    non-zero side condition explicitly. *)

From Stdlib Require Import Reals Lra Lia List ZArith NArith Bool Permutation.
Import ListNotations.

Open Scope R_scope.

(** ** Comparisons of doubles, as booleans *)

Module dbl.

Definition gtb (a b : R) : bool := if Rgt_dec a b then true else false.
Definition ltb (a b : R) : bool := if Rlt_dec a b then true else false.
Definition leb (a b : R) : bool := if Rle_dec a b then true else false.

End dbl.

(** ** The parts of the C++ standard library the sources use *)

Module std.

(** [std::max(a, b)] is [(a < b) ? b : a]. *)
Definition max (a b : R) : R := if Rlt_dec a b then b else a.

Definition fabs (x : R) : R := Rabs x.
Definition log (x : R) : R := ln x.

(** [std::pow(x, (double)i)] for the integral exponents the sources pass. *)
Definition pow (x : R) (i : nat) : R := x ^ i.

Section Algorithms.
Context {A : Type}.

(** [std::find_if(begin, end, pred)]: an iterator is the offset from
        [begin]; [end] is the length of the container. *)
Fixpoint find_if (pred : A -> bool) (l : list A) : nat :=
      match l with
      | [] => O
      | x :: l' => if pred x then O else S (find_if pred l')
      end.

Fixpoint count_if (pred : A -> bool) (l : list A) : nat :=
      match l with
      | [] => O
      | x :: l' => if pred x then S (count_if pred l') else count_if pred l'
      end.

(** [*it]: no value at or beyond [end]. *)
Definition deref (l : list A) (it : nat) : option A := nth_error l it.

(** [v.erase(it)] for a dereferenceable [it]. *)
Definition erase (l : list A) (it : nat) : list A :=
      firstn it l ++ skipn (S it) l.

(** [v.insert(v.begin(), first, last)]. *)
Definition insert_begin (l : list A) (range : list A) : list A :=
      range ++ l.

(** Assignment through a dereferenceable iterator, [*it = x]. *)
Definition assign (l : list A) (it : nat) (x : A) : list A :=
      firstn it l ++ x :: skipn (S it) l.

End Algorithms.

End std.

(** ** Particle identifiers

    [PID] wraps an [int] in the library; only the accessors that the three
    sources call on it appear below, as parameters of the code that calls
    them. *)

Definition PID : Type := Z.

(** ** [utils]: numerical helpers declared in [simprop/utils/numeric.h] *)

Module utils.

(** Modelled from the spec: [pow2] of [simprop/utils/numeric.h] (not among
    the sources), the square. *)
Definition pow2 (x : R) : R := x * x.

(** Modelled from the spec: [pow3] of [simprop/utils/numeric.h] (not among
    the sources), the cube. *)
Definition pow3 (x : R) : R := x * x * x.

(** Modelled from the spec: [pow4] of [simprop/utils/numeric.h] (not among
    the sources), the fourth power. *)
Definition pow4 (x : R) : R := x * x * x * x.

(** Modelled from the spec: [utils::rootFinder] of
    [simprop/utils/numeric.h] (not among the sources).  Section 4.2:
    "bisection-style root finding with a fixed iteration budget (e.g. 100
    iterations) and an absolute tolerance (e.g. 1e-5)", which "must still
    terminate within its iteration budget"; section 7: it "returns its best
    estimate after exhausting the budget"; section 8 measures the tolerance
    on the value of the function (the loss "never exceeds the critical
    threshold by more than the root-finder's tolerance").  Each of at most
    [maxIter] steps evaluates [f] at the midpoint of the bracket, the
    estimate of that step: the estimate is returned when [|f|] there is
    below [absError]; if not, the half of the bracket across which [f]
    changes sign is kept.  With the budget used up, the estimate of the
    last bracket is returned. *)
Fixpoint rootFinder (f : R -> R) (xLower xUpper : R) (maxIter : nat)
      (absError : R) : R :=
    let xMid := (xLower + xUpper) / 2 in
    match maxIter with
    | O => xMid
    | S budget =>
        if Rlt_dec (Rabs (f xMid)) absError then xMid
        else if Rle_dec (f xLower * f xMid) 0
             then rootFinder f xLower xMid budget absError
             else rootFinder f xMid xUpper budget absError
    end.

(** [utils::pow<exponent>(base)] of [simprop/utils.h]: the template
    recursion on [exponent >> 1], with [pow<0>(base) = 1]; the factor is
    [base] when the lowest bit of the exponent is set and 1 when not. *)
Fixpoint pow_positive (exponent : positive) (base : R) : R :=
  match exponent with
  | xH => 1 * base
  | xO half => pow_positive half (base * base) * 1
  | xI half => pow_positive half (base * base) * base
  end.

Definition pow (exponent : N) (base : R) : R :=
  match exponent with
  | N0 => 1
  | Npos e => pow_positive e base
  end.

End utils.

(** ** [losses::ContinuousLosses]: the interface of a continuous loss *)

Record ContinuousLosses : Type := {
  dlnGamma_dt : PID -> R -> R -> R   (* pid, Gamma, z *)
}.

(** ** [PairProductionLosses.cpp] *)

Module PairProductionLosses.

(** [photonfields::PhotonField], as far as [dotGamma] reads it. *)
Record PhotonField : Type := {
    getMinPhotonEnergy : R;
    getMaxPhotonEnergy : R;
    density : R -> R
  }.

Definition _c : list R := [0.8048; 0.1459; 1.137e-3; -3.879e-6].
Definition _d : list R := [-86.07; 50.96; -14.45; 8 / 3].
Definition _f : list R := [2.910; 78.35; 1837].

(** [for (i = 1; i <= 4; ++i) value += _c[i - 1] * pow(k - 2, i)] *)
Definition sum_c (k : R) : R :=
    fold_left (fun value i => value + nth (i - 1) _c 0 * std.pow (k - 2) i)
              (seq 1 4) 0.

Definition sum_d (k : R) : R :=
    let lnk := std.log k in
    fold_left (fun value i => value + nth i _d 0 * std.pow lnk i)
              (seq 0 4) 0.

Definition sum_f (k : R) : R :=
    fold_left (fun value i => value + nth (i - 1) _f 0 / std.pow k i)
              (seq 1 3) 0.

Definition phi (k : R) : R :=
    if Rlt_dec k 2 then 0
    else if Rlt_dec k 25 then
      PI / 12 * utils.pow4 (k - 2) / (1 + sum_c k)
    else
      (k * sum_d k) / (1 - sum_f k).

Section WithUnits.

(** The physical constants of [simprop/units.h] and the two library
        routines the file calls, none of them among the sources. *)
Variables (electronMassC2 alpha electronRadius cLight
               electronMass protonMass : R).
Variable simpsonIntegration : (R -> R) -> R -> R -> nat -> R.
Variable getPidNucleusCharge : PID -> Z.

(** The object: its only member is the list of photon fields. *)
Variable m_photonFields : list PhotonField.

Definition dotGamma (Gamma : R) : R :=
      let TwoGamma_mec2 := 2 * Gamma / electronMassC2 in
      let I :=
        fold_left
          (fun I phField =>
             let epsmin := getMinPhotonEnergy phField in
             let epsmax := getMaxPhotonEnergy phField in
             let lkmin := std.log (TwoGamma_mec2 * epsmin) in
             let lkmax := std.log (TwoGamma_mec2 * epsmax) in
             I + simpsonIntegration
                   (fun lnk =>
                      let k := exp lnk in
                      phi k / k * density phField (k / TwoGamma_mec2))
                   lkmin lkmax 200)
          m_photonFields 0 in
      let factor :=
        alpha * utils.pow2 electronRadius * cLight * electronMassC2 *
        (electronMass / protonMass) in
      factor * I / Gamma.

Definition dlnGamma_dt (pid : PID) (Gamma z : R) : R :=
      let b_l := utils.pow3 (1 + z) * dotGamma (Gamma * (1 + z)) in
      let Z := IZR (getPidNucleusCharge pid) in
      let A := IZR (getPidNucleusCharge pid) in
      let b_l := b_l * (utils.pow2 Z / A) in
      std.max b_l 0.

(** The class as an implementation of the interface. *)
Definition as_ContinuousLosses : ContinuousLosses :=
      Build_ContinuousLosses dlnGamma_dt.

End WithUnits.

End PairProductionLosses.

(** ** [examples/evolveProtons.cpp] *)

Module Evolutor.

(** [Particle], as the example reads and writes it: [getPid()], and
    [getNow()] giving the pair (redshift, Lorentz factor) that
    [getRedshift()] and [getGamma()] project. *)
Record State : Type := { z : R; Gamma : R }.

Record Particle : Type := { getPid : PID; getNow : State }.

Definition getRedshift (p : Particle) : R := z (getNow p).
Definition getGamma (p : Particle) : R := Gamma (getNow p).

Definition ParticleStack : Type := list Particle.

(** [RandomNumberGenerator]: a deterministic sequence of draws and the
    position reached in it; [m_rng()] returns the draw at the position and
    moves one further. *)
Record RandomNumberGenerator : Type := { draws : nat -> R; position : nat }.

Definition call (rng : RandomNumberGenerator) : R * RandomNumberGenerator :=
  (draws rng (position rng),
   {| draws := draws rng; position := S (position rng) |}).

(** The collaborators of the engine, by the members they are called on. *)
Record Cosmology : Type := { dtdz : R -> R }.

Record PhotoPionProduction : Type := {
  rate : PID -> R -> R -> R;
  finalState : Particle -> R -> RandomNumberGenerator ->
               list Particle * RandomNumberGenerator
}.

(** The data members of [class Evolutor] that its methods read. *)
Record Evolutor : Type := {
  m_rng : RandomNumberGenerator;
  m_stack : ParticleStack;
  m_cosmology : Cosmology;
  m_continuousLosses : list ContinuousLosses;
  m_pppcmb : PhotoPionProduction
}.

Definition deltaGammaCritical : R := 0.1.

(** What [utils::OutputFile] has received: one record per [out << ...]. *)
Definition OutputFile : Type := list (Particle * Z).

Section Methods.

(** [Particle::IsNucleus] and [utils::rootFinder] are not among the
    sources; the methods take them as parameters. *)
Variable IsNucleus : Particle -> bool.
Variable rootFinder : (R -> R) -> R -> R -> nat -> R -> R.

Definition IsActive (p : Particle) : bool :=
  let minPropagatingGamma := 1e7 in
  IsNucleus p && dbl.gtb (getRedshift p) 1e-20
              && dbl.gtb (getGamma p) minPropagatingGamma.

Definition computeStochasticRedshiftInterval (self : Evolutor)
    (particle : Particle) (r : R) : R :=
  let pid := getPid particle in
  let zNow := getRedshift particle in
  let Gamma := getGamma particle in
  let dtdz := dtdz (m_cosmology self) zNow in
  let lambda_s := std.fabs (1 / rate (m_pppcmb self) pid Gamma zNow / dtdz) in
  - lambda_s * std.log (1 - r).

(** The three accumulators of the loop over [m_continuousLosses]. *)
Definition accumulate (pid : PID) (Gamma zNow dz : R)
    (acc : R * R * R) (losses : ContinuousLosses) : R * R * R :=
  let '(dlnGammaNow, dlnGammaHalf, dlnGammaNext) := acc in
  let dlnGammaNow := dlnGammaNow + dlnGamma_dt losses pid Gamma zNow in
  let halfRedshift := zNow - 0.5 * dz in
  let dlnGammaHalf := dlnGammaHalf + dlnGamma_dt losses pid Gamma halfRedshift in
  let nextRedhisft := zNow - dz in
  let dlnGammaNext := dlnGammaNext + dlnGamma_dt losses pid Gamma nextRedhisft in
  (dlnGammaNow, dlnGammaHalf, dlnGammaNext).

Definition computeDeltaGamma (self : Evolutor) (particle : Particle)
    (dz : R) : R :=
  let pid := getPid particle in
  let zNow := getRedshift particle in
  let Gamma := getGamma particle in
  let dtdz := dtdz (m_cosmology self) zNow in
  let '(dlnGammaNow, dlnGammaHalf, dlnGammaNext) :=
    fold_left (accumulate pid Gamma zNow dz) (m_continuousLosses self)
              (0, 0, 0) in
  dz / 6 * dtdz * (dlnGammaNow + 4 * dlnGammaHalf + dlnGammaNext).

Definition computeLossesRedshiftInterval (self : Evolutor)
    (particle : Particle) : R :=
  let zNow := getRedshift particle in
  let dz := zNow in
  let deltaGamma := computeDeltaGamma self particle zNow in
  if dbl.gtb deltaGamma deltaGammaCritical then
    rootFinder
      (fun x => computeDeltaGamma self particle x - deltaGammaCritical)
      0 zNow 100 1e-5
  else dz.

(** One pass through the body of the [while] of [run].  An [assert] that
    does not hold ends the program; so does, in this total reading, the
    use of an iterator that cannot be dereferenced. *)
Inductive Step : Type :=
| AssertionFailed
| PastTheEnd
| Continue (self : Evolutor) (out : OutputFile).

Definition set_rng_stack (self : Evolutor) (rng : RandomNumberGenerator)
    (stack : ParticleStack) : Evolutor :=
  {| m_rng := rng;
     m_stack := stack;
     m_cosmology := m_cosmology self;
     m_continuousLosses := m_continuousLosses self;
     m_pppcmb := m_pppcmb self |}.

Definition run_body (self : Evolutor) (out : OutputFile) : Step :=
  let it := std.find_if IsActive (m_stack self) in
  match std.deref (m_stack self) it with
  | None => PastTheEnd
  | Some particle =>
      let out := out ++ [(particle, 0%Z)] in
      let nowRedshift := getRedshift particle in
      let '(r, rng) := call (m_rng self) in
      let dz_s := computeStochasticRedshiftInterval self particle r in
      if negb (dbl.gtb dz_s 0) then AssertionFailed else
      let dz_c := computeLossesRedshiftInterval self particle in
      if negb (dbl.gtb dz_c 0 && dbl.leb dz_c nowRedshift)
      then AssertionFailed else
      if dbl.gtb dz_s dz_c || dbl.gtb dz_s nowRedshift then
        let Gamma := getGamma particle in
        let dz := dz_c in
        let deltaGamma := computeDeltaGamma self particle dz in
        let now := {| z := nowRedshift - dz;
                      Gamma := Gamma * (1 - deltaGamma) |} in
        Continue
          (set_rng_stack self rng
             (std.assign (m_stack self) it
                {| getPid := getPid particle; getNow := now |}))
          out
      else
        let dz := dz_s in
        let '(finalState, rng) :=
          finalState (m_pppcmb self) particle (nowRedshift - dz) rng in
        Continue
          (set_rng_stack self rng
             (std.insert_begin (std.erase (m_stack self) it) finalState))
          out
  end.

(** [run]: the loop, bounded by [fuel] passes. *)
Inductive Run : Type :=
| Aborted (step : Step)
| OutOfFuel
| Finished (self : Evolutor) (out : OutputFile).

Fixpoint run_loop (fuel : nat) (self : Evolutor) (out : OutputFile) : Run :=
  let nActive := std.count_if IsActive (m_stack self) in
  if (0 <? nActive)%nat then
    match fuel with
    | O => OutOfFuel
    | S fuel' =>
        match run_body self out with
        | Continue self' out' => run_loop fuel' self' out'
        | stopped => Aborted stopped
        end
    end
  else Finished self out.

Definition run (fuel : nat) (self : Evolutor) : Run := run_loop fuel self [].

End Methods.

End Evolutor.

(** ** [src/simprop.cpp]: [DoPropagate], [Evolve] and [SimProp::run] *)

Module SimProp.

(** [Particle], as this file reads and writes it: [getNow()] gives the
    pair (redshift, energy) that [getZ()] and [getE()] project. *)
Record State : Type := { z : R; E : R }.

Record Particle : Type := { getPid : PID; getNow : State }.

Definition getZ (p : Particle) : R := z (getNow p).
Definition getE (p : Particle) : R := E (getNow p).

Definition ParticleStack : Type := list Particle.

Section Run.

(** [SI::eV] of [simprop/units.h] and [cosmo::adiabaticRelativeLoss] of
    [simprop/cosmology/cosmology.h] are not among the sources. *)
Variable eV : R.
Variable adiabaticRelativeLoss : R -> R -> R.

Definition DoPropagate (p : Particle) : bool :=
  let minPropagatingEnergy := eV in
  dbl.gtb (getZ p) 1e-20 && dbl.gtb (getE p) minPropagatingEnergy.

(** [Evolve(it)] on the container [it] points into: the container after the
    call, or nothing when [it] cannot be dereferenced. *)
Definition Evolve (m_particles : ParticleStack) (it : nat)
    : option ParticleStack :=
  match std.deref m_particles it with
  | None => None
  | Some p =>
      let dz := 0.01 in
      let currentRedshift := z (getNow p) in
      let newRedshift := std.max (currentRedshift - dz) 0 in
      let currentEnergy := E (getNow p) in
      let now :=
        {| z := newRedshift;
           E := currentEnergy *
                adiabaticRelativeLoss currentRedshift newRedshift |} in
      Some (std.assign m_particles it {| getPid := getPid p; getNow := now |})
  end.

Inductive Run : Type :=
| PastTheEnd (m_particles : ParticleStack)
| OutOfFuel
| Finished (m_particles : ParticleStack).

(** The [while] of [run]: [it] is tested against [end] first, then
    replaced by the result of [find_if] and handed to [Evolve]. *)
Fixpoint run_loop (fuel : nat) (it : nat) (m_particles : ParticleStack)
    : Run :=
  if negb (it =? length m_particles)%nat then
    match fuel with
    | O => OutOfFuel
    | S fuel' =>
        let it := std.find_if DoPropagate m_particles in
        match Evolve m_particles it with
        | None => PastTheEnd m_particles
        | Some m_particles' => run_loop fuel' it m_particles'
        end
    end
  else Finished m_particles.

(** [ParticleStack::iterator it = m_particles.begin();] then the loop. *)
Definition run (fuel : nat) (m_particles : ParticleStack) : Run :=
  run_loop fuel O m_particles.

End Run.

(** A bound on the number of calls of [Evolve] a particle can still
    receive: each call lowers a redshift above the floor by 0.01, or to 0. *)
Definition stepsLeft (z0 : R) : nat :=
  if Rgt_dec z0 1e-20 then Z.to_nat (up (z0 / 0.01)) else O.

Definition totalSteps (m_particles : ParticleStack) : nat :=
  list_sum (map (fun p => stepsLeft (getZ p)) m_particles).

(** [Params], as far as the constructor and [buildInitialStates] read it,
    and the data members of [class SimProp] they touch. *)
Record Params : Type := {
  pid : PID;
  nParticles : nat;
  seed : Z;
  redshiftRange : R * R;
  energyRange : R * R
}.

Record SimProp : Type := {
  m_params : Params;
  m_size : nat;
  m_rng : Evolutor.RandomNumberGenerator;
  m_particles : ParticleStack
}.

Section InitialStates.

(** [RandomNumberGenerator(seed)], [GetRndRedshift] and [GetRndEnergy] are
    not among the sources. *)
Variable seeded : Z -> Evolutor.RandomNumberGenerator.
Variable GetRndRedshift : R -> Z -> R -> R.
Variable GetRndEnergy : R * R -> R -> R.

(** The constructor's initialiser list. *)
Definition construct (params : Params) : SimProp :=
  {| m_params := params;
     m_size := nParticles params;
     m_rng := seeded (seed params);
     m_particles := [] |}.

(** The remaining [count] passes of the [for] of [buildInitialStates]:
    one draw for the redshift, then one for the energy, then
    [emplace_back]. *)
Fixpoint buildInitialStates_loop (params : Params) (count : nat)
    (rng : Evolutor.RandomNumberGenerator) (particles : ParticleStack)
    : Evolutor.RandomNumberGenerator * ParticleStack :=
  match count with
  | O => (rng, particles)
  | S count' =>
      let '(r_z, rng) := Evolutor.call rng in
      let z_i := GetRndRedshift (snd (redshiftRange params)) 2 r_z in
      let '(r_E, rng) := Evolutor.call rng in
      let E_i := GetRndEnergy (energyRange params) r_E in
      let p := {| getPid := pid params;
                  getNow := {| z := z_i; E := E_i |} |} in
      buildInitialStates_loop params count' rng (particles ++ [p])
  end.

Definition buildInitialStates (self : SimProp) : SimProp :=
  let '(rng, particles) :=
    buildInitialStates_loop (m_params self) (m_size self) (m_rng self)
      (m_particles self) in
  {| m_params := m_params self;
     m_size := m_size self;
     m_rng := rng;
     m_particles := particles |}.

End InitialStates.

End SimProp.

(** ** The quantities the specification names

    Section 4.1 speaks of "the summed loss rate": the sum, over the
    configured continuous-loss processes, of [dlnGamma_dt] at one
    redshift. *)

Module Spec.

Definition summedLossRate (losses : list ContinuousLosses) (pid : PID)
    (Gamma z' : R) : R :=
  fold_right Rplus 0 (map (fun l => dlnGamma_dt l pid Gamma z') losses).

(** Section 4.3: the mean free path in redshift units. *)
Definition meanFreePath (self : Evolutor.Evolutor)
    (particle : Evolutor.Particle) : R :=
  Rabs (1 / Evolutor.rate (Evolutor.m_pppcmb self)
               (Evolutor.getPid particle) (Evolutor.getGamma particle)
               (Evolutor.getRedshift particle)
          / Evolutor.dtdz (Evolutor.m_cosmology self)
               (Evolutor.getRedshift particle)).

End Spec.

(** ** Concrete engines

    Small configurations on which the statements below are exercised: one
    primary in the population, a constant [dt/dz], a constant interaction
    rate, constant continuous losses, and a random sequence that repeats
    one draw. *)

Module Example.
Import Evolutor.

Definition pid0 : PID := 1%Z.

Definition anyNucleus (p : Particle) : bool := true.

Definition primary (z0 Gamma0 : R) : Particle :=
  {| getPid := pid0; getNow := {| z := z0; Gamma := Gamma0 |} |}.

Definition constantDraws (r : R) : RandomNumberGenerator :=
  {| draws := fun _ => r; position := O |}.

Definition staticCosmology : Cosmology := {| dtdz := fun _ => 1 |}.

(** Rate 1; the final state is the primary at the new redshift with half
    its Lorentz factor, and a second particle carrying the other half. *)
Definition unitRate : PhotoPionProduction :=
  {| rate := fun _ _ _ => 1;
     finalState := fun p z' rng =>
       ([ {| getPid := getPid p;
             getNow := {| z := z'; Gamma := getGamma p / 2 |} |};
          {| getPid := 0%Z;
             getNow := {| z := z'; Gamma := getGamma p / 2 |} |} ],
        snd (call rng)) |}.

Definition constantLoss (c : R) : ContinuousLosses :=
  {| dlnGamma_dt := fun _ _ _ => c |}.

Definition engine (r : R) (losses : list ContinuousLosses) (p : Particle)
    : Evolutor :=
  {| m_rng := constantDraws r;
     m_stack := [p];
     m_cosmology := staticCosmology;
     m_continuousLosses := losses;
     m_pppcmb := unitRate |}.

(** The first run of [main]: one proton at redshift 1 with Lorentz factor
    1e12; here without continuous losses and with every draw 0.5. *)
Definition proton1 : Particle := primary 1 1e12.

Definition lossless : Evolutor := engine 0.5 [] proton1.

(** The same engine when the generator returns 0. *)
Definition zeroDraw : Evolutor := engine 0 [] proton1.

(** A steep loss: a primary close to redshift 0 under a loss rate that
    exhausts the critical fraction 0.1 within a redshift interval of 1e-6. *)
Definition nearby : Particle := primary 8e-6 1e8.

Definition steep : Evolutor := engine 0.5 [constantLoss 1e5] nearby.

(** A moderate loss, and a process whose rate is negative (a gain). *)
Definition halfway : Particle := primary 0.5 1e8.

Definition mild : Evolutor := engine 0.5 [constantLoss 0.1] halfway.




End Example.

(** * Properties *)

(** ** Doubles and the standard algorithms *)

Lemma gtb_true (a b : R) : dbl.gtb a b = true <-> a > b.
Proof. unfold dbl.gtb. destruct (Rgt_dec a b); split; intros; auto; discriminate. Qed.

Lemma gtb_false (a b : R) : dbl.gtb a b = false <-> a <= b.
Proof.
  unfold dbl.gtb. destruct (Rgt_dec a b); split; intros; auto; try discriminate; lra.
Qed.

Lemma leb_true (a b : R) : dbl.leb a b = true <-> a <= b.
Proof. unfold dbl.leb. destruct (Rle_dec a b); split; intros; auto; discriminate. Qed.

Lemma leb_false (a b : R) : dbl.leb a b = false <-> a > b.
Proof.
  unfold dbl.leb. destruct (Rle_dec a b); split; intros; auto; try discriminate; lra.
Qed.

Lemma std_max_Rmax (a b : R) : std.max a b = Rmax a b.
Proof.
  unfold std.max, Rmax.
  destruct (Rlt_dec a b), (Rle_dec a b); try reflexivity; lra.
Qed.

Section FindIf.
Context {A : Type} (pred : A -> bool).

Lemma find_if_le (l : list A) : (std.find_if pred l <= length l)%nat.
Proof. induction l as [|x l IH]; simpl; [lia|]. destruct (pred x); lia. Qed.

Lemma find_if_found (l : list A) :
  (std.find_if pred l < length l)%nat ->
  exists x, std.deref l (std.find_if pred l) = Some x /\ pred x = true.
Proof.
  induction l as [|x l IH]; simpl; [lia|].
  destruct (pred x) eqn:Hx; intros H.
  - exists x. split; [reflexivity | assumption].
  - apply IH. lia.
Qed.


Lemma count_if_pos_find_if (l : list A) :
  (0 < std.count_if pred l)%nat -> (std.find_if pred l < length l)%nat.
Proof.
  induction l as [|x l IH]; simpl; [lia|].
  destruct (pred x); intros H; [lia|]. specialize (IH H). lia.
Qed.

Lemma deref_end (l : list A) : std.deref l (length l) = None.
Proof. unfold std.deref. apply nth_error_None. lia. Qed.

Lemma deref_split (l : list A) (it : nat) (x : A) :
  std.deref l it = Some x ->
  l = firstn it l ++ x :: skipn (S it) l /\ length (firstn it l) = it.
Proof.
  unfold std.deref. revert it. induction l as [|y l IH]; intros [|it] H;
    simpl in *; try discriminate.
  - injection H as ->. auto.
  - destruct (IH _ H) as [E L]. split; [f_equal; exact E | f_equal; exact L].
Qed.

End FindIf.

(** ** The continuous-loss integrator *)

Section DeltaGamma.
Import Evolutor.

Lemma accumulate_sums (pid : PID) (G zNow dz : R) (losses : list ContinuousLosses) :
  forall a b c,
    fold_left (accumulate pid G zNow dz) losses (a, b, c) =
    (a + Spec.summedLossRate losses pid G zNow,
     b + Spec.summedLossRate losses pid G (zNow - 0.5 * dz),
     c + Spec.summedLossRate losses pid G (zNow - dz)).
Proof.
  induction losses as [|l losses IH]; intros a b c.
  - unfold Spec.summedLossRate. simpl. f_equal; [f_equal|]; lra.
  - simpl. rewrite IH. unfold Spec.summedLossRate. simpl.
    f_equal; [f_equal|]; lra.
Qed.

Lemma computeDeltaGamma_closed (self : Evolutor) (p : Particle) (dz : R) :
  computeDeltaGamma self p dz =
  dz / 6 * dtdz (m_cosmology self) (getRedshift p) *
  (Spec.summedLossRate (m_continuousLosses self) (getPid p) (getGamma p)
     (getRedshift p)
   + 4 * Spec.summedLossRate (m_continuousLosses self) (getPid p) (getGamma p)
           (getRedshift p - dz / 2)
   + Spec.summedLossRate (m_continuousLosses self) (getPid p) (getGamma p)
       (getRedshift p - dz)).
Proof.
  unfold computeDeltaGamma. rewrite accumulate_sums.
  replace (getRedshift p - 0.5 * dz) with (getRedshift p - dz / 2) by lra.
  ring.
Qed.

Lemma summedLossRate_zero (losses : list ContinuousLosses) :
  Forall (fun l => forall pid G z', dlnGamma_dt l pid G z' = 0) losses ->
  forall pid G z', Spec.summedLossRate losses pid G z' = 0.
Proof.
  intros H pid G z'. unfold Spec.summedLossRate.
  induction H as [|l losses Hl _ IH]; simpl; [reflexivity|].
  rewrite Hl, IH. lra.
Qed.


End DeltaGamma.

(** C2.  [computeDeltaGamma(particle, dz)] is
    [dz/6 * dtdz(z) * (R(z) + 4 R(z - dz/2) + R(z - dz))], with [R] the
    summed loss rate of the configured processes: the weights
    (now + 4 half + next)/6 times [dz * dt/dz] at the current redshift. *)
Theorem C2_computeDeltaGamma_simpson
    (self : Evolutor.Evolutor) (particle : Evolutor.Particle) (dz : R) :
  let z := Evolutor.getRedshift particle in
  let R' := Spec.summedLossRate (Evolutor.m_continuousLosses self)
              (Evolutor.getPid particle) (Evolutor.getGamma particle) in
  Evolutor.computeDeltaGamma self particle dz =
  dz / 6 * Evolutor.dtdz (Evolutor.m_cosmology self) z *
  (R' z + 4 * R' (z - dz / 2) + R' (z - dz)).
Proof. intros z R'. apply computeDeltaGamma_closed. Qed.

(** ** One pass of [Evolutor::run] *)

Section RunBody.
Import Evolutor.

Variable IsNucleus : Particle -> bool.
Variable rootFinder : (R -> R) -> R -> R -> nat -> R -> R.
Variables (self : Evolutor) (out : OutputFile).

(** While [nActive > 0], [find_if] selects a particle, and it is active. *)
Lemma selected_active :
  (0 < std.count_if (IsActive IsNucleus) (m_stack self))%nat ->
  exists particle,
    std.deref (m_stack self) (std.find_if (IsActive IsNucleus) (m_stack self))
      = Some particle /\
    IsActive IsNucleus particle = true.
Proof.
  intros H. apply find_if_found, count_if_pos_find_if, H.
Qed.

Lemma IsActive_bounds (p : Particle) :
  IsActive IsNucleus p = true ->
  IsNucleus p = true /\ getRedshift p > 1e-20 /\ getGamma p > 1e7.
Proof.
  unfold IsActive. intros H.
  apply andb_prop in H as [H HG]. apply andb_prop in H as [HN Hz].
  apply gtb_true in Hz, HG. auto.
Qed.

Variable particle : Particle.

Hypothesis selected :
  std.deref (m_stack self) (std.find_if (IsActive IsNucleus) (m_stack self))
    = Some particle.

Lemma run_body_assert_dz_s :
  ~ computeStochasticRedshiftInterval self particle (fst (call (m_rng self))) > 0 ->
  run_body IsNucleus rootFinder self out = AssertionFailed.
Proof.
  intros H. unfold run_body. rewrite selected. cbn [call fst snd].
  replace (dbl.gtb _ 0) with false; [reflexivity|].
  symmetry. apply gtb_false. cbn [call fst] in H. lra.
Qed.

Lemma run_body_continuous :
  let it := std.find_if (IsActive IsNucleus) (m_stack self) in
  let nowRedshift := getRedshift particle in
  let r := fst (call (m_rng self)) in
  let rng := snd (call (m_rng self)) in
  let dz_s := computeStochasticRedshiftInterval self particle r in
  let dz_c := computeLossesRedshiftInterval rootFinder self particle in
  dz_s > 0 -> 0 < dz_c <= nowRedshift ->
  dz_s > dz_c \/ dz_s > nowRedshift ->
  run_body IsNucleus rootFinder self out =
  Continue
    (set_rng_stack self rng
       (std.assign (m_stack self) it
          {| getPid := getPid particle;
             getNow :=
               {| z := nowRedshift - dz_c;
                  Gamma := getGamma particle *
                           (1 - computeDeltaGamma self particle dz_c) |} |}))
    (out ++ [(particle, 0%Z)]).
Proof.
  intros it nowRedshift r rng dz_s dz_c Hs [Hc0 Hc1] Hbranch.
  subst it nowRedshift r rng dz_s dz_c. cbn [call fst snd] in *.
  unfold run_body. rewrite selected. cbn [call fst snd].
  apply gtb_true in Hs. rewrite Hs. cbn [negb].
  apply Rlt_gt, gtb_true in Hc0. apply leb_true in Hc1.
  rewrite Hc0, Hc1. cbn [negb andb].
  rewrite <- !gtb_true in Hbranch.
  apply orb_true_iff in Hbranch. rewrite Hbranch. reflexivity.
Qed.

Lemma run_body_stochastic :
  let it := std.find_if (IsActive IsNucleus) (m_stack self) in
  let nowRedshift := getRedshift particle in
  let r := fst (call (m_rng self)) in
  let rng := snd (call (m_rng self)) in
  let dz_s := computeStochasticRedshiftInterval self particle r in
  let dz_c := computeLossesRedshiftInterval rootFinder self particle in
  let products :=
    finalState (m_pppcmb self) particle (nowRedshift - dz_s) rng in
  dz_s > 0 -> 0 < dz_c <= nowRedshift ->
  ~ (dz_s > dz_c \/ dz_s > nowRedshift) ->
  run_body IsNucleus rootFinder self out =
  Continue
    (set_rng_stack self (snd products)
       (std.insert_begin (std.erase (m_stack self) it) (fst products)))
    (out ++ [(particle, 0%Z)]).
Proof.
  intros it nowRedshift r rng dz_s dz_c products Hs [Hc0 Hc1] Hbranch.
  subst it nowRedshift r rng dz_s dz_c products. cbn [call fst snd] in *.
  unfold run_body. rewrite selected. cbn [call fst snd].
  apply gtb_true in Hs. rewrite Hs. cbn [negb].
  apply Rlt_gt, gtb_true in Hc0. apply leb_true in Hc1.
  rewrite Hc0, Hc1. cbn [negb andb].
  assert (Hb : forall a b, ~ a > b -> dbl.gtb a b = false)
    by (intros a b H; apply gtb_false; lra).
  rewrite !Hb by tauto. cbn [orb].
  destruct (finalState _ _ _ _) as [fs rng']. reflexivity.
Qed.

End RunBody.

(** ** The concrete engines *)

Section Examples.
Import Evolutor Example.

Lemma primary_active (z0 G0 : R) :
  z0 > 1e-20 -> G0 > 1e7 -> IsActive anyNucleus (primary z0 G0) = true.
Proof.
  intros Hz HG. unfold IsActive, anyNucleus, primary, getRedshift, getGamma.
  cbn [getNow z Gamma]. apply gtb_true in Hz, HG. rewrite Hz, HG. reflexivity.
Qed.

Lemma engine_selected (r : R) (losses : list ContinuousLosses) (z0 G0 : R) :
  z0 > 1e-20 -> G0 > 1e7 ->
  std.find_if (IsActive anyNucleus) (m_stack (engine r losses (primary z0 G0))) = O /\
  std.deref (m_stack (engine r losses (primary z0 G0))) O = Some (primary z0 G0) /\
  (0 < std.count_if (IsActive anyNucleus)
         (m_stack (engine r losses (primary z0 G0))))%nat.
Proof.
  intros Hz HG. pose proof (primary_active z0 G0 Hz HG) as Ha.
  cbn [engine m_stack std.find_if std.count_if]. rewrite Ha.
  repeat split. lia.
Qed.

(** With [dt/dz = 1] and a constant loss [c], the integrator is [c * dz]. *)
Lemma engine_deltaGamma (r c z0 G0 dz : R) :
  computeDeltaGamma (engine r [constantLoss c] (primary z0 G0))
    (primary z0 G0) dz = c * dz.
Proof. unfold computeDeltaGamma. cbn. field. Qed.

Lemma engine_deltaGamma_nil (r z0 G0 dz : R) :
  computeDeltaGamma (engine r [] (primary z0 G0)) (primary z0 G0) dz = 0.
Proof. unfold computeDeltaGamma. cbn. field. Qed.

(** With rate 1 and [dt/dz = 1] the sampler is [- ln (1 - r)]. *)
Lemma engine_stochastic (r : R) (losses : list ContinuousLosses) (p : Particle) (r' : R) :
  computeStochasticRedshiftInterval (engine r losses p) p r' = - ln (1 - r').
Proof.
  unfold computeStochasticRedshiftInterval, std.fabs, std.log. cbn.
  replace (1 / 1 / 1) with 1 by field. rewrite Rabs_R1. ring.
Qed.

Lemma ln_2_bounds : 1 / 2 < ln 2 < 1.
Proof.
  split.
  - pose proof ln_lt_2. lra.
  - rewrite <- (ln_exp 1). apply ln_increasing; [lra|].
    pose proof (exp_ineq1 1). lra.
Qed.

Lemma sample_half : 1 / 2 < - ln (1 - 0.5) < 1.
Proof.
  replace (1 - 0.5) with (/ 2) by lra.
  rewrite ln_Rinv by lra. rewrite Ropp_involutive. exact ln_2_bounds.
Qed.

End Examples.

(** ** Population conservation *)

(** C9.  After a pass that takes the stochastic branch the population is
    the collection returned by [finalState] followed by the previous
    population without the interacting particle: every other particle is
    where it was relative to the others, none is lost and none is
    repeated. *)
Theorem C9_population_conservation
    (IsNucleus : Evolutor.Particle -> bool)
    (rootFinder : (R -> R) -> R -> R -> nat -> R -> R)
    (self : Evolutor.Evolutor) (out : Evolutor.OutputFile)
    (particle : Evolutor.Particle) :
  let stack := Evolutor.m_stack self in
  let it := std.find_if (Evolutor.IsActive IsNucleus) stack in
  let z_now := Evolutor.getRedshift particle in
  let r := fst (Evolutor.call (Evolutor.m_rng self)) in
  let rng := snd (Evolutor.call (Evolutor.m_rng self)) in
  let dz_s := Evolutor.computeStochasticRedshiftInterval self particle r in
  let dz_c := Evolutor.computeLossesRedshiftInterval rootFinder self particle in
  let products :=
    fst (Evolutor.finalState (Evolutor.m_pppcmb self) particle
           (z_now - dz_s) rng) in
  std.deref stack it = Some particle ->
  dz_s > 0 -> 0 < dz_c <= z_now ->
  ~ (dz_s > dz_c \/ dz_s > z_now) ->
  exists self' out' before after,
    Evolutor.run_body IsNucleus rootFinder self out =
      Evolutor.Continue self' out' /\
    length before = it /\
    stack = before ++ particle :: after /\
    Evolutor.m_stack self' = products ++ before ++ after /\
    Permutation (particle :: Evolutor.m_stack self') (products ++ stack).
Proof.
  intros stack it z_now r rng dz_s dz_c products Hsel Hs Hc Hbranch.
  pose proof (run_body_stochastic IsNucleus rootFinder self out particle
                Hsel Hs Hc Hbranch) as Hrun.
  cbv zeta in Hrun. rewrite Hrun.
  destruct (deref_split stack it particle Hsel) as [Hsplit Hlen].
  eexists _, _, (firstn it stack), (skipn (S it) stack).
  split; [reflexivity|]. split; [exact Hlen|]. split; [exact Hsplit|].
  split; [reflexivity|].
  cbn [Evolutor.set_rng_stack Evolutor.m_stack].
  unfold std.insert_begin, std.erase. fold stack it.
  rewrite Hsplit at 3. fold products.
  rewrite Permutation_middle.
  apply Permutation_app_head. apply Permutation_middle.
Qed.

Section LosslessEngine.
Import Evolutor Example.

Lemma lossesInterval_direct
    (rootFinder : (R -> R) -> R -> R -> nat -> R -> R)
    (self : Evolutor) (p : Particle) :
  computeDeltaGamma self p (getRedshift p) <= deltaGammaCritical ->
  computeLossesRedshiftInterval rootFinder self p = getRedshift p.
Proof.
  intros H. unfold computeLossesRedshiftInterval.
  apply gtb_false in H. rewrite H. reflexivity.
Qed.

Lemma lossesInterval_root
    (rootFinder : (R -> R) -> R -> R -> nat -> R -> R)
    (self : Evolutor) (p : Particle) :
  computeDeltaGamma self p (getRedshift p) > deltaGammaCritical ->
  computeLossesRedshiftInterval rootFinder self p =
  rootFinder (fun x => computeDeltaGamma self p x - deltaGammaCritical)
    0 (getRedshift p) 100%nat 1e-5.
Proof.
  intros H. unfold computeLossesRedshiftInterval.
  apply gtb_true in H. rewrite H. reflexivity.
Qed.

Lemma proton1_redshift : getRedshift proton1 = 1.
Proof. reflexivity. Qed.

Lemma lossless_selected :
  std.deref (m_stack lossless)
    (std.find_if (IsActive anyNucleus) (m_stack lossless)) = Some proton1.
Proof.
  destruct (engine_selected 0.5 [] 1 1e12) as (E & D & _); try lra.
  unfold lossless, proton1. rewrite E. exact D.
Qed.

Lemma lossless_dz_s :
  1 / 2 <
  computeStochasticRedshiftInterval lossless proton1
    (fst (call (m_rng lossless))) < 1.
Proof.
  unfold lossless. rewrite engine_stochastic. cbn [call fst engine m_rng constantDraws draws].
  exact sample_half.
Qed.

Lemma lossless_dz_c :
  computeLossesRedshiftInterval utils.rootFinder lossless proton1 = 1.
Proof.
  unfold lossless, proton1. rewrite lossesInterval_direct; [reflexivity|].
  rewrite engine_deltaGamma_nil. unfold deltaGammaCritical. lra.
Qed.

End LosslessEngine.

Lemma C9_population_conservation_witness :
  std.deref (Evolutor.m_stack Example.lossless)
    (std.find_if (Evolutor.IsActive Example.anyNucleus)
       (Evolutor.m_stack Example.lossless)) = Some Example.proton1 /\
  exists self' out',
    Evolutor.run_body Example.anyNucleus utils.rootFinder Example.lossless []
      = Evolutor.Continue self' out' /\
    Permutation
      (Example.proton1 :: Evolutor.m_stack self')
      (fst (Evolutor.finalState (Evolutor.m_pppcmb Example.lossless)
              Example.proton1
              (Evolutor.getRedshift Example.proton1 -
               Evolutor.computeStochasticRedshiftInterval Example.lossless
                 Example.proton1
                 (fst (Evolutor.call (Evolutor.m_rng Example.lossless))))
              (snd (Evolutor.call (Evolutor.m_rng Example.lossless))))
       ++ Evolutor.m_stack Example.lossless).
Proof.
  split; [exact lossless_selected|].
  pose proof lossless_dz_s as Hs. pose proof lossless_dz_c as Hc.
  destruct (C9_population_conservation Example.anyNucleus utils.rootFinder
              Example.lossless [] Example.proton1 lossless_selected)
    as (self' & out' & before & after & Hrun & _ & _ & _ & Hperm).
  - lra.
  - rewrite Hc, proton1_redshift. lra.
  - rewrite Hc, proton1_redshift. lra.
  - exists self', out'. split; [exact Hrun | exact Hperm].
Defined.

(** ** The asserted invariants *)

(** C5.  When the generator returns 0 -- a draw of [[0,1)] -- the sampler
    gives [dz_s = - lambda * ln 1 = 0] for the selected particle, whatever
    the rate and [dt/dz]: [assert(dz_s > 0.)] does not hold and the pass
    ends there. *)
Theorem C5_assert_dz_s_fails_at_zero_draw
    (IsNucleus : Evolutor.Particle -> bool)
    (rootFinder : (R -> R) -> R -> R -> nat -> R -> R)
    (self : Evolutor.Evolutor) (out : Evolutor.OutputFile)
    (Hloop : (0 < std.count_if (Evolutor.IsActive IsNucleus)
                     (Evolutor.m_stack self))%nat)
    (Hdraw : fst (Evolutor.call (Evolutor.m_rng self)) = 0) :
  exists particle,
    std.deref (Evolutor.m_stack self)
      (std.find_if (Evolutor.IsActive IsNucleus) (Evolutor.m_stack self))
      = Some particle /\
    Evolutor.IsActive IsNucleus particle = true /\
    0 <= fst (Evolutor.call (Evolutor.m_rng self)) < 1 /\
    Evolutor.computeStochasticRedshiftInterval self particle
      (fst (Evolutor.call (Evolutor.m_rng self))) = 0 /\
    Evolutor.run_body IsNucleus rootFinder self out = Evolutor.AssertionFailed.
Proof.
  destruct (selected_active IsNucleus self Hloop) as (particle & Hsel & Hact).
  assert (Hz : Evolutor.computeStochasticRedshiftInterval self particle
                 (fst (Evolutor.call (Evolutor.m_rng self))) = 0).
  { rewrite Hdraw. unfold Evolutor.computeStochasticRedshiftInterval, std.log.
    replace (1 - 0) with 1 by lra. rewrite ln_1. ring. }
  exists particle. repeat split; try assumption; try (rewrite Hdraw; lra).
  apply (run_body_assert_dz_s IsNucleus rootFinder self out particle Hsel).
  rewrite Hz. lra.
Qed.

Lemma C5_assert_dz_s_fails_at_zero_draw_witness :
  fst (Evolutor.call (Evolutor.m_rng Example.zeroDraw)) = 0 /\
  Evolutor.run_body Example.anyNucleus utils.rootFinder Example.zeroDraw []
    = Evolutor.AssertionFailed.
Proof.
  split; [reflexivity|].
  destruct (C5_assert_dz_s_fails_at_zero_draw Example.anyNucleus
              utils.rootFinder Example.zeroDraw [])
    as (particle & _ & _ & _ & _ & Hrun).
  - apply engine_selected; lra.
  - reflexivity.
  - exact Hrun.
Defined.

(** ** The adaptive continuous step *)

(** What the modelled bisection returns on a bracket across which [f]
    changes sign: the midpoint of a bracket inside the first one, still
    with [f] negative at its lower end and not negative at its upper end,
    where either [|f|] is below the tolerance or the budget of halvings is
    used up. *)
Lemma rootFinder_bisects (f : R -> R) (absError : R) (maxIter : nat) :
  forall xLower xUpper,
    xLower < xUpper -> f xLower < 0 -> 0 <= f xUpper ->
    exists a b,
      xLower <= a /\ a < b /\ b <= xUpper /\
      utils.rootFinder f xLower xUpper maxIter absError = (a + b) / 2 /\
      f a < 0 /\ 0 <= f b /\
      (Rabs (f ((a + b) / 2)) < absError \/
       b - a = (xUpper - xLower) / 2 ^ maxIter).
Proof.
  induction maxIter as [|budget IH]; intros xLower xUpper H Hl Hu;
    cbn [utils.rootFinder].
  - exists xLower, xUpper. repeat split; try lra; right; simpl; lra.
  - destruct (Rlt_dec (Rabs (f ((xLower + xUpper) / 2))) absError) as [Hc|Hc].
    + exists xLower, xUpper. repeat split; try lra; left; exact Hc.
    + assert (Hp : 0 < 2 ^ budget) by (apply pow_lt; lra).
      destruct (Rle_dec (f xLower * f ((xLower + xUpper) / 2)) 0) as [Hs|Hs].
      * assert (Hm : 0 <= f ((xLower + xUpper) / 2)) by nra.
        destruct (IH xLower ((xLower + xUpper) / 2)) as
          (a & b & Ha & Hab & Hb & E & Hfa & Hfb & Hstop); try lra.
        exists a, b. repeat split; try lra; try assumption.
        destruct Hstop as [Hstop|Hstop]; [left; exact Hstop|right].
        rewrite Hstop. simpl. field. lra.
      * assert (Hm : f ((xLower + xUpper) / 2) < 0) by nra.
        destruct (IH ((xLower + xUpper) / 2) xUpper) as
          (a & b & Ha & Hab & Hb & E & Hfa & Hfb & Hstop); try lra.
        exists a, b. repeat split; try lra; try assumption.
        destruct Hstop as [Hstop|Hstop]; [left; exact Hstop|right].
        rewrite Hstop. simpl. field. lra.
Qed.

Lemma rootFinder_ext (f g : R -> R) (absError : R) (maxIter : nat) :
  (forall x, f x = g x) ->
  forall xLower xUpper,
    utils.rootFinder f xLower xUpper maxIter absError =
    utils.rootFinder g xLower xUpper maxIter absError.
Proof.
  intros E. induction maxIter as [|budget IH]; intros xLower xUpper;
    cbn [utils.rootFinder]; [reflexivity|].
  rewrite !E, !IH. reflexivity.
Qed.

(** One step of the modelled bisection, by cases. *)
Lemma rootFinder_converged (f : R -> R) (xLower xUpper absError : R) (budget : nat) :
  Rabs (f ((xLower + xUpper) / 2)) < absError ->
  utils.rootFinder f xLower xUpper (S budget) absError = (xLower + xUpper) / 2.
Proof.
  intros H. cbn [utils.rootFinder].
  destruct (Rlt_dec _ absError); [reflexivity | contradiction].
Qed.

Lemma rootFinder_lower_half (f : R -> R) (xLower xUpper absError : R) (budget : nat) :
  absError <= Rabs (f ((xLower + xUpper) / 2)) ->
  f xLower * f ((xLower + xUpper) / 2) <= 0 ->
  utils.rootFinder f xLower xUpper (S budget) absError =
  utils.rootFinder f xLower ((xLower + xUpper) / 2) budget absError.
Proof.
  intros H Hs. cbn [utils.rootFinder].
  destruct (Rlt_dec _ absError); [lra|].
  destruct (Rle_dec _ 0); [reflexivity | contradiction].
Qed.

Lemma computeDeltaGamma_zero_step (self : Evolutor.Evolutor)
    (p : Evolutor.Particle) :
  Evolutor.computeDeltaGamma self p 0 = 0.
Proof. rewrite computeDeltaGamma_closed. unfold Rdiv. ring. Qed.

(** C3.  For a particle at [z_now > 0], [computeLossesRedshiftInterval]
    evaluates [computeDeltaGamma(particle, z_now)]; when that does not
    exceed 0.1 it returns [z_now]; otherwise it returns the root finder's
    estimate for [computeDeltaGamma(particle, x) - 0.1] on [[0, z_now]]
    with budget 100 and tolerance 1e-5, which is the midpoint of a bracket
    inside [[0, z_now]] with the loss below 0.1 at its lower end and at
    least 0.1 at its upper end, and at which the loss is within 1e-5 of 0.1
    unless the bracket was halved 100 times; either way the step lies in
    [(0, z_now]]. *)
Theorem C3_computeLossesRedshiftInterval
    (self : Evolutor.Evolutor) (particle : Evolutor.Particle)
    (Hz : 0 < Evolutor.getRedshift particle) :
  let z_now := Evolutor.getRedshift particle in
  let dGamma := Evolutor.computeDeltaGamma self particle in
  let dz_c :=
    Evolutor.computeLossesRedshiftInterval utils.rootFinder self particle in
  (dGamma z_now <= 0.1 -> dz_c = z_now) /\
  (dGamma z_now > 0.1 ->
   dz_c = utils.rootFinder (fun x => dGamma x - 0.1) 0 z_now 100 1e-5 /\
   exists a b,
     0 <= a /\ a < dz_c < b /\ b <= z_now /\ dz_c = (a + b) / 2 /\
     dGamma a < 0.1 <= dGamma b /\
     (Rabs (dGamma dz_c - 0.1) < 1e-5 \/ b - a = z_now / 2 ^ 100)) /\
  0 < dz_c <= z_now.
Proof.
  intros z_now dGamma dz_c.
  assert (Hroot : dGamma z_now > 0.1 ->
            dz_c = utils.rootFinder (fun x => dGamma x - 0.1) 0 z_now 100 1e-5 /\
            exists a b,
              0 <= a /\ a < dz_c < b /\ b <= z_now /\ dz_c = (a + b) / 2 /\
              dGamma a < 0.1 <= dGamma b /\
              (Rabs (dGamma dz_c - 0.1) < 1e-5 \/ b - a = z_now / 2 ^ 100)).
  { intros Hbig.
    assert (E : dz_c = utils.rootFinder (fun x => dGamma x - 0.1)
                         0 z_now 100 1e-5)
      by (apply lossesInterval_root; exact Hbig).
    split; [exact E|].
    destruct (rootFinder_bisects (fun x => dGamma x - 0.1) 1e-5 100 0 z_now)
      as (a & b & Ha & Hab & Hb & Emid & Hfa & Hfb & Hstop).
    - exact Hz.
    - unfold dGamma. rewrite computeDeltaGamma_zero_step. lra.
    - lra.
    - exists a, b. rewrite E, Emid.
      split; [exact Ha|]. split; [lra|]. split; [exact Hb|].
      split; [reflexivity|]. split; [lra|].
      destruct Hstop as [Hstop|Hstop]; [left; exact Hstop|right].
      rewrite Hstop. f_equal. lra. }
  split; [|split; [exact Hroot|]].
  - apply lossesInterval_direct.
  - destruct (Rle_dec (dGamma z_now) 0.1) as [H|H].
    + unfold dz_c. rewrite (lossesInterval_direct _ _ _ H).
      unfold z_now. lra.
    + destruct Hroot as (_ & a & b & Ha & Hab & Hb & _); lra.
Qed.

(** The steep engine: the first evaluation gives 0.8 > 0.1, and the
    modelled bisection goes through the estimates 4e-6 and 2e-6 (loss 0.4
    and 0.2) to 1e-6, where the loss is 0.1. *)
Lemma steep_first_evaluation :
  Evolutor.computeDeltaGamma Example.steep Example.nearby
    (Evolutor.getRedshift Example.nearby) > 0.1.
Proof.
  unfold Example.steep, Example.nearby. rewrite engine_deltaGamma.
  change (Evolutor.getRedshift (Example.primary 8e-6 1e8)) with 8e-6. lra.
Qed.

Lemma steep_dz_c :
  Evolutor.computeLossesRedshiftInterval utils.rootFinder
    Example.steep Example.nearby = 1e-6.
Proof.
  rewrite lossesInterval_root by exact steep_first_evaluation.
  rewrite (rootFinder_ext _ (fun x => 1e5 * x - 0.1)).
  2:{ intros x. unfold Example.steep, Example.nearby.
      rewrite engine_deltaGamma. reflexivity. }
  change (Evolutor.getRedshift Example.nearby) with 8e-6.
  rewrite rootFinder_lower_half.
  2:{ replace (1e5 * ((0 + 8e-6) / 2) - 0.1) with 0.3 by lra.
      rewrite Rabs_pos_eq; lra. }
  2:{ lra. }
  rewrite rootFinder_lower_half.
  2:{ replace (1e5 * ((0 + (0 + 8e-6) / 2) / 2) - 0.1) with 0.1 by lra.
      rewrite Rabs_pos_eq; lra. }
  2:{ lra. }
  rewrite rootFinder_converged.
  - lra.
  - replace (1e5 * ((0 + (0 + (0 + 8e-6) / 2) / 2) / 2) - 0.1) with 0 by lra.
    rewrite Rabs_R0. lra.
Qed.

Lemma C3_computeLossesRedshiftInterval_witness :
  (0 < Evolutor.getRedshift Example.nearby /\
   Evolutor.computeDeltaGamma Example.steep Example.nearby
     (Evolutor.getRedshift Example.nearby) > 0.1 /\
   Evolutor.computeLossesRedshiftInterval utils.rootFinder
     Example.steep Example.nearby =
   utils.rootFinder
     (fun x => Evolutor.computeDeltaGamma Example.steep Example.nearby x - 0.1)
     0 (Evolutor.getRedshift Example.nearby) 100 1e-5 /\
   Evolutor.computeLossesRedshiftInterval utils.rootFinder
     Example.steep Example.nearby = 1e-6 /\
   0 < Evolutor.computeLossesRedshiftInterval utils.rootFinder
         Example.steep Example.nearby
     <= Evolutor.getRedshift Example.nearby) /\
  (0 < Evolutor.getRedshift Example.proton1 /\
   Evolutor.computeDeltaGamma Example.lossless Example.proton1
     (Evolutor.getRedshift Example.proton1) <= 0.1 /\
   Evolutor.computeLossesRedshiftInterval utils.rootFinder
     Example.lossless Example.proton1 = Evolutor.getRedshift Example.proton1).
Proof.
  split.
  - assert (Hz : 0 < Evolutor.getRedshift Example.nearby).
    { change (Evolutor.getRedshift Example.nearby) with 8e-6. lra. }
    pose proof steep_first_evaluation as Hbig.
    destruct (C3_computeLossesRedshiftInterval Example.steep Example.nearby Hz)
      as (_ & Hroot & Hbound).
    destruct (Hroot Hbig) as [E _].
    split; [exact Hz|]. split; [exact Hbig|]. split; [exact E|].
    split; [exact steep_dz_c | exact Hbound].
  - assert (Hz : 0 < Evolutor.getRedshift Example.proton1)
      by (rewrite proton1_redshift; lra).
    assert (Hsmall : Evolutor.computeDeltaGamma Example.lossless Example.proton1
                       (Evolutor.getRedshift Example.proton1) <= 0.1).
    { unfold Example.lossless, Example.proton1.
      rewrite engine_deltaGamma_nil. lra. }
    split; [exact Hz|]. split; [exact Hsmall|].
    exact (proj1 (C3_computeLossesRedshiftInterval
                    Example.lossless Example.proton1 Hz) Hsmall).
Defined.

(** C7.  When every configured continuous-loss process returns 0
    everywhere, [computeDeltaGamma] is 0 for every particle and every [dz],
    and [computeLossesRedshiftInterval] returns [z_now]. *)
Theorem C7_zero_losses
    (rootFinder : (R -> R) -> R -> R -> nat -> R -> R)
    (self : Evolutor.Evolutor)
    (Hzero : Forall (fun l => forall pid G z', dlnGamma_dt l pid G z' = 0)
               (Evolutor.m_continuousLosses self)) :
  forall particle,
    (forall dz, Evolutor.computeDeltaGamma self particle dz = 0) /\
    Evolutor.computeLossesRedshiftInterval rootFinder self particle =
    Evolutor.getRedshift particle.
Proof.
  intros particle.
  assert (H0 : forall dz, Evolutor.computeDeltaGamma self particle dz = 0).
  { intros dz. rewrite computeDeltaGamma_closed.
    rewrite !(summedLossRate_zero _ Hzero). ring. }
  split; [exact H0|].
  apply lossesInterval_direct. rewrite H0.
  unfold Evolutor.deltaGammaCritical. lra.
Qed.

Lemma C7_zero_losses_witness :
  Forall (fun l => forall pid G z', dlnGamma_dt l pid G z' = 0)
    (Evolutor.m_continuousLosses
       (Example.engine 0.5
          [Example.constantLoss 0; Example.constantLoss 0] Example.proton1)) /\
  Evolutor.computeLossesRedshiftInterval utils.rootFinder
    (Example.engine 0.5
       [Example.constantLoss 0; Example.constantLoss 0] Example.proton1)
    Example.proton1 = Evolutor.getRedshift Example.proton1.
Proof.
  assert (H : Forall (fun l => forall pid G z', dlnGamma_dt l pid G z' = 0)
                (Evolutor.m_continuousLosses
                   (Example.engine 0.5
                      [Example.constantLoss 0; Example.constantLoss 0]
                      Example.proton1))).
  { repeat constructor. }
  split; [exact H|].
  exact (proj2 (C7_zero_losses utils.rootFinder _ H Example.proton1)).
Defined.

(** ** The stochastic sampler *)

Lemma stochastic_closed (self : Evolutor.Evolutor) (p : Evolutor.Particle) (r : R) :
  Evolutor.computeStochasticRedshiftInterval self p r =
  - Spec.meanFreePath self p * ln (1 - r).
Proof. reflexivity. Qed.

(** A draw of [[0,1)] that makes the sample equal to a given positive
    length [d]. *)
Lemma stochastic_reaches (self : Evolutor.Evolutor) (p : Evolutor.Particle) (d : R) :
  0 < Spec.meanFreePath self p -> 0 < d ->
  let r := 1 - exp (- (d / Spec.meanFreePath self p)) in
  0 <= r < 1 /\ Evolutor.computeStochasticRedshiftInterval self p r = d.
Proof.
  intros Hl Hd r. subst r.
  set (lam := Spec.meanFreePath self p) in *.
  assert (Hq : 0 < d / lam) by (apply Rdiv_lt_0_compat; assumption).
  split.
  - pose proof (exp_pos (- (d / lam))).
    assert (exp (- (d / lam)) < 1).
    { rewrite <- exp_0. apply exp_increasing. lra. }
    lra.
  - rewrite stochastic_closed. fold lam.
    replace (1 - (1 - exp (- (d / lam)))) with (exp (- (d / lam))) by ring.
    rewrite ln_exp. field. lra.
Qed.

(** C4.  For a draw [r] of [[0,1)] the sampler returns
    [- lambda * ln (1 - r)], with [lambda = |1 / rate(pid, Gamma, z_now) /
    dtdz(z_now)|]; nothing caps the value at [z_now]: whenever [lambda] is
    positive some draw of [[0,1)] gives a sample beyond [z_now]. *)
Theorem C4_computeStochasticRedshiftInterval
    (self : Evolutor.Evolutor) (particle : Evolutor.Particle) (r : R)
    (Hr : 0 <= r < 1) :
  let pid := Evolutor.getPid particle in
  let G := Evolutor.getGamma particle in
  let z_now := Evolutor.getRedshift particle in
  let lambda :=
    Rabs (1 / Evolutor.rate (Evolutor.m_pppcmb self) pid G z_now
            / Evolutor.dtdz (Evolutor.m_cosmology self) z_now) in
  Evolutor.computeStochasticRedshiftInterval self particle r =
    - lambda * ln (1 - r) /\
  (0 < lambda ->
   exists r', 0 <= r' < 1 /\
     Evolutor.computeStochasticRedshiftInterval self particle r' > z_now).
Proof.
  intros pid G z_now lambda. split; [reflexivity|].
  intros Hl.
  assert (Hd : 0 < Rabs z_now + 1) by (pose proof (Rabs_pos z_now); lra).
  destruct (stochastic_reaches self particle (Rabs z_now + 1) Hl Hd) as [Hr' E].
  eexists. split; [exact Hr'|]. rewrite E.
  pose proof (Rle_abs z_now). lra.
Qed.

Lemma C4_computeStochasticRedshiftInterval_witness :
  0 <= 0.5 < 1 /\
  Evolutor.computeStochasticRedshiftInterval Example.lossless
    Example.proton1 0.5 = - Rabs (1 / 1 / 1) * ln (1 - 0.5).
Proof.
  assert (Hr : 0 <= 0.5 < 1) by lra.
  split; [exact Hr|].
  exact (proj1 (C4_computeStochasticRedshiftInterval
                  Example.lossless Example.proton1 0.5 Hr)).
Defined.

(** ** The continuous branch *)

Lemma deref_assign {A : Type} (l : list A) (it : nat) (x y : A) :
  std.deref l it = Some x -> std.deref (std.assign l it y) it = Some y.
Proof.
  intros H. destruct (deref_split l it x H) as [_ Hlen].
  unfold std.deref, std.assign.
  rewrite nth_error_app2 by lia. rewrite Hlen, Nat.sub_diag. reflexivity.
Qed.



Section ContinuousExamples.
Import Evolutor Example.

Lemma engine_half_selected (losses : list ContinuousLosses) (z0 G0 : R) :
  z0 > 1e-20 -> G0 > 1e7 ->
  std.deref (m_stack (engine 0.5 losses (primary z0 G0)))
    (std.find_if (IsActive anyNucleus)
       (m_stack (engine 0.5 losses (primary z0 G0))))
  = Some (primary z0 G0).
Proof.
  intros Hz HG.
  destruct (engine_selected 0.5 losses z0 G0 Hz HG) as (E & D & _).
  rewrite E. exact D.
Qed.

Lemma engine_half_dz_s (losses : list ContinuousLosses) (p : Particle) :
  1 / 2 <
  computeStochasticRedshiftInterval (engine 0.5 losses p) p
    (fst (call (m_rng (engine 0.5 losses p)))) < 1.
Proof.
  rewrite engine_stochastic.
  cbn [call fst engine m_rng constantDraws draws]. exact sample_half.
Qed.

Lemma mild_dz_c :
  computeLossesRedshiftInterval utils.rootFinder mild halfway = 0.5.
Proof.
  unfold mild, halfway. rewrite lossesInterval_direct; [reflexivity|].
  rewrite engine_deltaGamma. unfold deltaGammaCritical, getRedshift. cbn.
  lra.
Qed.


End ContinuousExamples.

(** ** The decision rule of [Evolutor::run] *)

(** C1.  In a pass of the loop of [run] (so some particle is active), with
    [particle] the first active one and the two asserted invariants
    holding, the pass goes on with a new engine state [self'] that has the
    collaborators of the old one and one more record written.  If
    [dz_s > dz_c] or [dz_s > z_now], the population of [self'] is the old
    one with the particle overwritten in place by
    [(z_now - dz_c, Gamma * (1 - dGamma))],
    [dGamma = computeDeltaGamma(particle, dz_c)], and one draw was taken
    from the generator.  If not, [finalState] is called on the particle
    with redshift [z_now - dz_s] and the generator after that draw; the
    population of [self'] is the products followed by the old population
    without the particle, and the generator is the one [finalState]
    leaves. *)
Theorem C1_run_decision_rule
    (IsNucleus : Evolutor.Particle -> bool)
    (rootFinder : (R -> R) -> R -> R -> nat -> R -> R)
    (self : Evolutor.Evolutor) (out : Evolutor.OutputFile)
    (Hloop : (0 < std.count_if (Evolutor.IsActive IsNucleus)
                     (Evolutor.m_stack self))%nat) :
  exists particle,
    let stack := Evolutor.m_stack self in
    let it := std.find_if (Evolutor.IsActive IsNucleus) stack in
    let z_now := Evolutor.getRedshift particle in
    let r := fst (Evolutor.call (Evolutor.m_rng self)) in
    let rng := snd (Evolutor.call (Evolutor.m_rng self)) in
    let dz_s := Evolutor.computeStochasticRedshiftInterval self particle r in
    let dz_c := Evolutor.computeLossesRedshiftInterval rootFinder self particle in
    let dGamma := Evolutor.computeDeltaGamma self particle dz_c in
    let products :=
      Evolutor.finalState (Evolutor.m_pppcmb self) particle (z_now - dz_s) rng in
    std.deref stack it = Some particle /\
    Evolutor.IsActive IsNucleus particle = true /\
    (dz_s > 0 -> 0 < dz_c <= z_now ->
     exists self' out',
       Evolutor.run_body IsNucleus rootFinder self out =
         Evolutor.Continue self' out' /\
       out' = out ++ [(particle, 0%Z)] /\
       Evolutor.m_cosmology self' = Evolutor.m_cosmology self /\
       Evolutor.m_continuousLosses self' = Evolutor.m_continuousLosses self /\
       Evolutor.m_pppcmb self' = Evolutor.m_pppcmb self /\
       (dz_s > dz_c \/ dz_s > z_now ->
        Evolutor.m_rng self' = rng /\
        Evolutor.m_stack self' =
          firstn it stack ++
          {| Evolutor.getPid := Evolutor.getPid particle;
             Evolutor.getNow :=
               {| Evolutor.z := z_now - dz_c;
                  Evolutor.Gamma :=
                    Evolutor.getGamma particle * (1 - dGamma) |} |}
          :: skipn (S it) stack) /\
       (~ (dz_s > dz_c \/ dz_s > z_now) ->
        Evolutor.m_rng self' = snd products /\
        Evolutor.m_stack self' =
          fst products ++ firstn it stack ++ skipn (S it) stack)).
Proof.
  destruct (selected_active IsNucleus self Hloop) as (particle & Hsel & Hact).
  exists particle. cbv zeta. split; [exact Hsel|]. split; [exact Hact|].
  intros Hs Hc.
  destruct (Rgt_dec
              (Evolutor.computeStochasticRedshiftInterval self particle
                 (fst (Evolutor.call (Evolutor.m_rng self))))
              (Evolutor.computeLossesRedshiftInterval rootFinder self particle))
    as [Hb|Hb];
    [|destruct (Rgt_dec
                  (Evolutor.computeStochasticRedshiftInterval self particle
                     (fst (Evolutor.call (Evolutor.m_rng self))))
                  (Evolutor.getRedshift particle)) as [Hb'|Hb']].
  - pose proof (run_body_continuous IsNucleus rootFinder self out particle
                  Hsel Hs Hc (or_introl Hb)) as Hrun.
    cbv zeta in Hrun. eexists _, _. split; [exact Hrun|].
    cbn [Evolutor.set_rng_stack Evolutor.m_rng Evolutor.m_stack
         Evolutor.m_cosmology Evolutor.m_continuousLosses Evolutor.m_pppcmb].
    repeat split; tauto.
  - pose proof (run_body_continuous IsNucleus rootFinder self out particle
                  Hsel Hs Hc (or_intror Hb')) as Hrun.
    cbv zeta in Hrun. eexists _, _. split; [exact Hrun|].
    cbn [Evolutor.set_rng_stack Evolutor.m_rng Evolutor.m_stack
         Evolutor.m_cosmology Evolutor.m_continuousLosses Evolutor.m_pppcmb].
    repeat split; tauto.
  - assert (Hn : ~ (Evolutor.computeStochasticRedshiftInterval self particle
                      (fst (Evolutor.call (Evolutor.m_rng self)))
                    > Evolutor.computeLossesRedshiftInterval rootFinder self
                        particle \/
                    Evolutor.computeStochasticRedshiftInterval self particle
                      (fst (Evolutor.call (Evolutor.m_rng self)))
                    > Evolutor.getRedshift particle)) by tauto.
    pose proof (run_body_stochastic IsNucleus rootFinder self out particle
                  Hsel Hs Hc Hn) as Hrun.
    cbv zeta in Hrun. eexists _, _. split; [exact Hrun|].
    cbn [Evolutor.set_rng_stack Evolutor.m_rng Evolutor.m_stack
         Evolutor.m_cosmology Evolutor.m_continuousLosses Evolutor.m_pppcmb].
    repeat split; tauto.
Qed.

Lemma C1_run_decision_rule_witness :
  ((0 < std.count_if (Evolutor.IsActive Example.anyNucleus)
          (Evolutor.m_stack Example.mild))%nat /\
   Evolutor.computeStochasticRedshiftInterval Example.mild Example.halfway
     (fst (Evolutor.call (Evolutor.m_rng Example.mild)))
   > Evolutor.computeLossesRedshiftInterval utils.rootFinder
       Example.mild Example.halfway /\
   exists self' out',
     Evolutor.run_body Example.anyNucleus utils.rootFinder Example.mild []
       = Evolutor.Continue self' out' /\
     out' = [(Example.halfway, 0%Z)] /\
     Evolutor.m_rng self' = snd (Evolutor.call (Evolutor.m_rng Example.mild)) /\
     Evolutor.m_stack self' =
       [ Example.primary (0.5 - 0.5)
           (1e8 * (1 - Evolutor.computeDeltaGamma Example.mild
                         Example.halfway 0.5)) ]) /\
  ((0 < std.count_if (Evolutor.IsActive Example.anyNucleus)
          (Evolutor.m_stack Example.lossless))%nat /\
   Evolutor.computeStochasticRedshiftInterval Example.lossless Example.proton1
     (fst (Evolutor.call (Evolutor.m_rng Example.lossless)))
   <= Evolutor.computeLossesRedshiftInterval utils.rootFinder
        Example.lossless Example.proton1 /\
   exists self' out',
     Evolutor.run_body Example.anyNucleus utils.rootFinder Example.lossless []
       = Evolutor.Continue self' out' /\
     out' = [(Example.proton1, 0%Z)] /\
     Evolutor.m_stack self' =
       fst (Evolutor.finalState (Evolutor.m_pppcmb Example.lossless)
              Example.proton1
              (1 - Evolutor.computeStochasticRedshiftInterval Example.lossless
                     Example.proton1
                     (fst (Evolutor.call (Evolutor.m_rng Example.lossless))))
              (snd (Evolutor.call (Evolutor.m_rng Example.lossless))))).
Proof.
  split.
  - destruct (engine_selected 0.5 [Example.constantLoss 0.1] 0.5 1e8)
      as (Eit & Hd & Hloop); try lra.
    pose proof (engine_half_dz_s [Example.constantLoss 0.1] Example.halfway) as Hs.
    pose proof mild_dz_c as Hc.
    fold Example.halfway Example.mild in Eit, Hd, Hloop, Hs.
    split; [exact Hloop|]. split; [rewrite Hc; lra|].
    destruct (C1_run_decision_rule Example.anyNucleus utils.rootFinder
                Example.mild [] Hloop) as (particle & Hsel & _ & H).
    cbv zeta in Hsel, H. rewrite Eit in Hsel, H. rewrite Hd in Hsel.
    injection Hsel as <-. rewrite Hc in H.
    destruct H as (self' & out' & Hrun & Hout & _ & _ & _ & Hcont & _).
    + lra.
    + change (Evolutor.getRedshift Example.halfway) with 0.5. lra.
    + destruct Hcont as [Hrng Hstack]; [left; lra|].
      exists self', out'. split; [exact Hrun|]. split; [exact Hout|].
      split; [exact Hrng|]. rewrite Hstack. reflexivity.
  - destruct (engine_selected 0.5 [] 1 1e12) as (Eit & Hd & Hloop); try lra.
    pose proof lossless_dz_s as Hs. pose proof lossless_dz_c as Hc.
    fold Example.proton1 Example.lossless in Eit, Hd, Hloop.
    split; [exact Hloop|]. split; [rewrite Hc; lra|].
    destruct (C1_run_decision_rule Example.anyNucleus utils.rootFinder
                Example.lossless [] Hloop) as (particle & Hsel & _ & H).
    cbv zeta in Hsel, H. rewrite Eit in Hsel, H. rewrite Hd in Hsel.
    injection Hsel as <-. rewrite Hc in H.
    destruct H as (self' & out' & Hrun & Hout & _ & _ & _ & _ & Hstoch).
    + lra.
    + rewrite proton1_redshift. lra.
    + destruct Hstoch as [_ Hstack].
      { rewrite proton1_redshift. lra. }
      exists self', out'. split; [exact Hrun|]. split; [exact Hout|].
      rewrite Hstack. rewrite proton1_redshift. cbn [firstn skipn app].
      apply app_nil_r.
Defined.


(** ** Pair production *)

Section PairProduction.
Import PairProductionLosses.

Variables (electronMassC2 alpha electronRadius cLight
           electronMass protonMass : R).
Variable simpsonIntegration : (R -> R) -> R -> R -> nat -> R.
Variable getPidNucleusCharge : PID -> Z.
Variable m_photonFields : list PhotonField.

(** C6.  [PairProductionLosses::dlnGamma_dt(pid, Gamma, z)] is
    [max(0, (1+z)^3 * dotGamma(Gamma * (1+z)) * Z^2 / A)], hence never
    negative; [Z] and [A] are both [getPidNucleusCharge(pid)], so that for a
    charge other than 0 the factor [Z^2 / A] is the charge itself. *)
Theorem C6_pair_production_rate (pid : PID) (G z : R) :
  let rate :=
    dlnGamma_dt electronMassC2 alpha electronRadius cLight electronMass
      protonMass simpsonIntegration getPidNucleusCharge m_photonFields
      pid G z in
  let dotG :=
    dotGamma electronMassC2 alpha electronRadius cLight electronMass
      protonMass simpsonIntegration m_photonFields (G * (1 + z)) in
  let Zc := IZR (getPidNucleusCharge pid) in
  let Ac := IZR (getPidNucleusCharge pid) in
  rate = Rmax 0 ((1 + z) ^ 3 * dotG * (Zc ^ 2 / Ac)) /\
  0 <= rate /\
  (getPidNucleusCharge pid <> 0%Z ->
   Zc ^ 2 / Ac = Zc /\ rate = Rmax 0 ((1 + z) ^ 3 * dotG * Zc)).
Proof.
  intros rate dotG Zc Ac.
  assert (E : rate = Rmax 0 ((1 + z) ^ 3 * dotG * (Zc ^ 2 / Ac))).
  { subst rate. unfold dlnGamma_dt. rewrite std_max_Rmax, Rmax_comm.
    fold dotG Zc. unfold utils.pow3, utils.pow2. f_equal.
    subst Ac Zc. generalize (IZR (getPidNucleusCharge pid)) dotG.
    intros q d. unfold Rdiv. ring. }
  split; [exact E|]. split.
  - rewrite E. apply Rmax_l.
  - intros Hne.
    assert (Hz : Zc <> 0) by (subst Zc; apply not_0_IZR; exact Hne).
    assert (Hq : Zc ^ 2 / Ac = Zc) by (subst Ac Zc; field; exact Hz).
    split; [exact Hq|]. rewrite E, Hq. reflexivity.
Qed.

End PairProduction.

Lemma C6_pair_production_rate_witness :
  (fun _ : PID => 1%Z) Example.pid0 <> 0%Z /\
  PairProductionLosses.dlnGamma_dt 1 1 1 1 1 1 (fun _ _ _ _ => 1)
    (fun _ => 1%Z) [] Example.pid0 1e12 1 =
  Rmax 0 ((1 + 1) ^ 3 *
          PairProductionLosses.dotGamma 1 1 1 1 1 1 (fun _ _ _ _ => 1) []
            (1e12 * (1 + 1)) * 1).
Proof.
  assert (H : (fun _ : PID => 1%Z) Example.pid0 <> 0%Z) by discriminate.
  split; [exact H|].
  exact (proj2 (proj2 (proj2 (C6_pair_production_rate 1 1 1 1 1 1
                                (fun _ _ _ _ => 1) (fun _ => 1%Z) []
                                Example.pid0 1e12 1)) H)).
Defined.

(** ** [SimProp::run] *)

Section SimPropRun.
Import SimProp.

Variable eV : R.
Variable adiabaticRelativeLoss : R -> R -> R.

Lemma DoPropagate_redshift (p : Particle) :
  DoPropagate eV p = true -> getZ p > 1e-20.
Proof.
  unfold DoPropagate. intros H. apply andb_prop in H as [H _].
  apply gtb_true in H. exact H.
Qed.

(** One call of [Evolve] uses up one of the remaining steps. *)
Lemma stepsLeft_Evolve (z0 : R) :
  z0 > 1e-20 -> (stepsLeft (std.max (z0 - 0.01) 0) < stepsLeft z0)%nat.
Proof.
  intros Hz. unfold stepsLeft at 2.
  destruct (Rgt_dec z0 1e-20) as [_|]; [|contradiction].
  destruct (archimed (z0 / 0.01)) as [Hu1 Hu2].
  assert (Hpos : 0 < z0 / 0.01) by (apply Rdiv_lt_0_compat; lra).
  assert (Hu : (1 <= up (z0 / 0.01))%Z).
  { apply Z.lt_pred_le. apply lt_IZR. simpl. lra. }
  unfold stepsLeft, std.max.
  destruct (Rlt_dec (z0 - 0.01) 0) as [Hneg|Hnn].
  - destruct (Rgt_dec 0 1e-20) as [H|_]; [lra | lia].
  - destruct (Rgt_dec (z0 - 0.01) 1e-20) as [Hbig|_]; [|lia].
    assert (E : (up (z0 / 0.01) - 1)%Z = up ((z0 - 0.01) / 0.01)).
    { apply tech_up; rewrite minus_IZR;
        replace ((z0 - 0.01) / 0.01) with (z0 / 0.01 - 1) by lra; lra. }
    rewrite <- E.
    assert (0 < (z0 - 0.01) / 0.01) by (apply Rdiv_lt_0_compat; lra).
    assert (1 <= up (z0 / 0.01) - 1)%Z.
    { apply Z.lt_pred_le. apply lt_IZR. rewrite E.
      destruct (archimed ((z0 - 0.01) / 0.01)). simpl. lra. }
    lia.
Qed.

Lemma totalSteps_assign (l : ParticleStack) (it : nat) (p p' : Particle) :
  std.deref l it = Some p ->
  (totalSteps (std.assign l it p') + stepsLeft (getZ p) =
   totalSteps l + stepsLeft (getZ p'))%nat /\
  length (std.assign l it p') = length l.
Proof.
  intros H. destruct (deref_split l it p H) as [E _].
  unfold std.assign. set (a := firstn it l) in *. set (b := skipn (S it) l) in *.
  rewrite E. unfold totalSteps.
  rewrite !map_app, !list_sum_app, !length_app. simpl. lia.
Qed.

(** What [Evolve] does through an iterator that [find_if] found. *)
Lemma Evolve_found (m_particles : ParticleStack) :
  let it := std.find_if (DoPropagate eV) m_particles in
  (it < length m_particles)%nat ->
  exists m_particles',
    Evolve adiabaticRelativeLoss m_particles it = Some m_particles' /\
    length m_particles' = length m_particles /\
    (totalSteps m_particles' < totalSteps m_particles)%nat.
Proof.
  intros it Hit.
  destruct (find_if_found (DoPropagate eV) m_particles Hit) as (p & Hp & Hprop).
  fold it in Hp. unfold Evolve. rewrite Hp.
  eexists. split; [reflexivity|].
  match goal with |- context [std.assign _ _ ?q] => set (p' := q) end.
  destruct (totalSteps_assign m_particles it p p' Hp) as [Hsum Hlen].
  split; [exact Hlen|].
  pose proof (stepsLeft_Evolve (getZ p) (DoPropagate_redshift p Hprop)) as Hdec.
  assert (Hz' : getZ p' = std.max (getZ p - 0.01) 0) by reflexivity.
  rewrite Hz' in Hsum. lia.
Qed.

(** Through the past-the-end iterator [Evolve] has nothing to read. *)
Lemma Evolve_end (m_particles : ParticleStack) :
  Evolve adiabaticRelativeLoss m_particles (length m_particles) = None.
Proof. unfold Evolve. rewrite deref_end. reflexivity. Qed.


(** The loop is left only through [it == end], and [it] is always an
    iterator [Evolve] could dereference. *)
Lemma run_loop_never_finishes (fuel : nat) :
  forall m_particles it m_particles',
    it <> length m_particles ->
    run_loop eV adiabaticRelativeLoss fuel it m_particles <>
      Finished m_particles'.
Proof.
  induction fuel as [|fuel IH]; intros ps it ps' Hit;
    apply Nat.eqb_neq in Hit; cbn [run_loop]; rewrite Hit; cbn [negb].
  - discriminate.
  - destruct (Nat.eq_dec (std.find_if (DoPropagate eV) ps) (length ps)) as [Hend|Hfound].
    + rewrite Hend, Evolve_end. discriminate.
    + pose proof (find_if_le (DoPropagate eV) ps) as Hle.
      destruct (Evolve_found ps) as (ps1 & HE & Hlen & _); [lia|].
      rewrite HE. apply IH. lia.
Qed.

End SimPropRun.



(** * Further properties of the sources *)

(** ** [utils::pow] *)

Lemma pow_positive_spec (exponent : positive) :
  forall base, utils.pow_positive exponent base = base ^ Pos.to_nat exponent.
Proof.
  induction exponent as [half IH|half IH|]; intros base; cbn [utils.pow_positive].
  - rewrite IH, Pos2Nat.inj_xI, <- pow_sqr. simpl. ring.
  - rewrite IH, Pos2Nat.inj_xO, <- pow_sqr. ring.
  - simpl. ring.
Qed.

Lemma utils_pow_power (exponent : N) (base : R) :
  utils.pow exponent base = base ^ N.to_nat exponent.
Proof.
  destruct exponent as [|e]; [reflexivity|].
  cbn [utils.pow N.to_nat]. apply pow_positive_spec.
Qed.

(** X1.  The template [utils::pow<exponent>] computes the power: for every
    exponent and base, [pow<exponent>(base)] is [base] multiplied by itself
    [exponent] times (1 for exponent 0, whatever the base). *)
Theorem X1_utils_pow_is_power (exponent : N) (base : R) :
  utils.pow exponent base = base ^ N.to_nat exponent.
Proof. apply utils_pow_power. Qed.

(** X2.  Exponents add: [pow<m + n>(base) = pow<m>(base) * pow<n>(base)],
    and the power of a product is the product of the powers. *)
Theorem X2_utils_pow_homomorphism (m n : N) (a b : R) :
  utils.pow (m + n) a = utils.pow m a * utils.pow n a /\
  utils.pow n (a * b) = utils.pow n a * utils.pow n b.
Proof.
  rewrite !utils_pow_power, N2Nat.inj_add. split.
  - apply pow_add.
  - apply Rpow_mult_distr.
Qed.

(** ** The pair-production function [phi] *)

Section Phi.
Import PairProductionLosses.

Lemma sum_c_closed (k : R) :
  sum_c k = 0.8048 * (k - 2) + 0.1459 * (k - 2) ^ 2
            + 1.137e-3 * (k - 2) ^ 3 + -3.879e-6 * (k - 2) ^ 4.
Proof.
  unfold sum_c, _c, std.pow. cbn [fold_left seq nth Nat.sub]. lra.
Qed.

Lemma sum_d_closed (k : R) :
  sum_d k = -86.07 + 50.96 * ln k - 14.45 * ln k ^ 2 + 8 / 3 * ln k ^ 3.
Proof.
  unfold sum_d, _d, std.pow, std.log. cbn [fold_left seq nth]. lra.
Qed.

Lemma sum_f_closed (k : R) :
  sum_f k = 2.910 * / k + 78.35 * (/ k) ^ 2 + 1837 * (/ k) ^ 3.
Proof.
  unfold sum_f, _f, std.pow. cbn [fold_left seq nth Nat.sub].
  rewrite !pow_inv. unfold Rdiv. rewrite pow_1. lra.
Qed.

Lemma sum_c_nonneg (k : R) : 2 <= k < 25 -> 0 <= sum_c k.
Proof.
  intros H. rewrite sum_c_closed.
  assert (Hx : 0 <= k - 2) by lra.
  pose proof (pow_le _ 2 Hx). pose proof (pow_le _ 3 Hx).
  assert (k - 2 < 23) by lra. nra.
Qed.

Lemma sum_f_small (k : R) : 25 <= k -> sum_f k < 1.
Proof.
  intros H. rewrite sum_f_closed.
  assert (Hu : 0 < / k) by (apply Rinv_0_lt_compat; lra).
  assert (Hu' : / k <= / 25) by (apply Rinv_le_contravar; lra).
  assert (/ k <= 0.04) by lra. nra.
Qed.

Lemma exp_7_5 : exp 1.4 <= 5.
Proof.
  replace 1.4 with (1 + 0.4) by lra. rewrite exp_plus.
  pose proof exp_le_3. pose proof (exp_ineq1_le (Ropp 0.4)) as H1.
  rewrite exp_Ropp in H1. pose proof (exp_pos 0.4) as Hp.
  assert (0.6 * exp 0.4 <= 1).
  { apply (Rmult_le_compat_r (exp 0.4)) in H1; [|lra].
    rewrite Rinv_l in H1 by lra. lra. }
  pose proof (exp_pos 1). nra.
Qed.

Lemma ln_from_25 (k : R) : 25 <= k -> 2.8 <= ln k.
Proof.
  intros H.
  assert (He : exp 2.8 <= 25).
  { replace 2.8 with (1.4 + 1.4) by lra. rewrite exp_plus.
    pose proof exp_7_5. pose proof (exp_pos 1.4). nra. }
  destruct (Rle_lt_dec 2.8 (ln k)) as [|H0]; [assumption|].
  apply exp_increasing in H0. rewrite exp_ln in H0 by lra. lra.
Qed.

Lemma sum_d_pos (k : R) : 25 <= k -> 0 < sum_d k.
Proof.
  intros H. rewrite sum_d_closed.
  pose proof (ln_from_25 k H) as HL.
  assert (Ht : 0 <= ln k - 2.8) by lra.
  pose proof (pow_le _ 2 Ht). pose proof (pow_le _ 3 Ht).
  replace (-86.07 + 50.96 * ln k - 14.45 * ln k ^ 2 + 8 / 3 * ln k ^ 3)
    with (8 / 3 * (ln k - 2.8) ^ 3 + 7.95 * (ln k - 2.8) ^ 2
          + 32.76 * (ln k - 2.8) + 2803 / 1500) by nra.
  lra.
Qed.

(** X3.  Below and at the threshold [k = 2], [phi] is 0: the first branch
    returns 0 for [k < 2], and the second gives 0 at [k = 2], so the
    function has no jump where the branches meet. *)
Theorem X3_phi_zero_up_to_threshold (k : R) (Hk : k <= 2) : phi k = 0.
Proof.
  unfold phi. destruct (Rlt_dec k 2) as [|Hge]; [reflexivity|].
  assert (E : k = 2) by lra. subst k.
  destruct (Rlt_dec 2 25); [|lra].
  unfold utils.pow4. replace (2 - 2) with 0 by lra.
  unfold Rdiv. ring.
Qed.

Lemma X3_phi_zero_up_to_threshold_witness : 2 <= 2 /\ phi 2 = 0.
Proof.
  assert (H : 2 <= 2) by lra.
  split; [exact H | exact (X3_phi_zero_up_to_threshold 2 H)].
Defined.

(** X4.  [phi] never divides by zero: from the threshold on, the
    denominator of the branch taken -- [1 + sum_c(k)] for [k < 25],
    [1 - sum_f(k)] from 25 on -- is positive. *)
Theorem X4_phi_denominator_positive (k : R) (Hk : 2 <= k) :
  0 < (if Rlt_dec k 25 then 1 + sum_c k else 1 - sum_f k).
Proof.
  destruct (Rlt_dec k 25) as [H25|H25].
  - assert (H : 2 <= k < 25) by lra. pose proof (sum_c_nonneg k H). lra.
  - assert (H : 25 <= k) by lra. pose proof (sum_f_small k H). lra.
Qed.

Lemma X4_phi_denominator_positive_witness :
  2 <= 30 /\ 0 < (if Rlt_dec 30 25 then 1 + sum_c 30 else 1 - sum_f 30).
Proof.
  assert (H : 2 <= 30) by lra.
  split; [exact H | exact (X4_phi_denominator_positive 30 H)].
Defined.

(** X5.  [phi] is never negative, whatever [k]. *)
Theorem X5_phi_nonneg (k : R) : 0 <= phi k.
Proof.
  unfold phi. destruct (Rlt_dec k 2) as [|H2]; [lra|].
  destruct (Rlt_dec k 25) as [H25|H25].
  - assert (Hk : 2 <= k < 25) by lra.
    pose proof (sum_c_nonneg k Hk).
    apply Rmult_le_pos.
    + apply Rmult_le_pos.
      * pose proof PI_RGT_0. lra.
      * unfold utils.pow4. assert (0 <= k - 2) by lra.
        repeat apply Rmult_le_pos; assumption.
    + apply Rlt_le, Rinv_0_lt_compat. lra.
  - assert (Hk : 25 <= k) by lra.
    pose proof (sum_d_pos k Hk). pose proof (sum_f_small k Hk).
    apply Rmult_le_pos.
    + apply Rmult_le_pos; lra.
    + apply Rlt_le, Rinv_0_lt_compat. lra.
Qed.

End Phi.

(** ** [PairProductionLosses::dotGamma] over the photon fields *)

Section DotGamma.
Import PairProductionLosses.

Variables (electronMassC2 alpha electronRadius cLight
           electronMass protonMass : R).
Variable simpsonIntegration : (R -> R) -> R -> R -> nat -> R.
Variable getPidNucleusCharge : PID -> Z.

Lemma fold_left_plus_shift {A : Type} (g : A -> R) (l : list A) :
  forall a, fold_left (fun acc x => acc + g x) l a
            = a + fold_left (fun acc x => acc + g x) l 0.
Proof.
  induction l as [|x l IH]; intros a; simpl; [lra|].
  rewrite (IH (a + g x)), (IH (0 + g x)). lra.
Qed.

(** X6.  The photon fields contribute additively: [dotGamma] over the
    fields [fields1] followed by [fields2] is the sum of [dotGamma] over
    each list (CMB and EBL can be integrated separately). *)
Theorem X6_dotGamma_additive (fields1 fields2 : list PhotonField) (G : R) :
  dotGamma electronMassC2 alpha electronRadius cLight electronMass
    protonMass simpsonIntegration (fields1 ++ fields2) G =
  dotGamma electronMassC2 alpha electronRadius cLight electronMass
    protonMass simpsonIntegration fields1 G +
  dotGamma electronMassC2 alpha electronRadius cLight electronMass
    protonMass simpsonIntegration fields2 G.
Proof.
  unfold dotGamma. rewrite fold_left_app.
  rewrite fold_left_plus_shift. unfold Rdiv. ring.
Qed.

(** X7.  Without photon fields there is no pair-production loss: for a
    Lorentz factor, a redshift and a charge for which no quotient has a
    zero denominator, [dotGamma] and [dlnGamma_dt] are 0. *)
Theorem X7_no_photon_field_no_loss (pid : PID) (G z : R)
    (HG : G * (1 + z) <> 0) (HZ : getPidNucleusCharge pid <> 0%Z) :
  dotGamma electronMassC2 alpha electronRadius cLight electronMass
    protonMass simpsonIntegration [] (G * (1 + z)) = 0 /\
  dlnGamma_dt electronMassC2 alpha electronRadius cLight electronMass
    protonMass simpsonIntegration getPidNucleusCharge [] pid G z = 0.
Proof.
  assert (E : dotGamma electronMassC2 alpha electronRadius cLight electronMass
                protonMass simpsonIntegration [] (G * (1 + z)) = 0).
  { unfold dotGamma. cbn [fold_left]. unfold Rdiv. ring. }
  split; [exact E|].
  unfold dlnGamma_dt. rewrite E, std_max_Rmax.
  assert (Hq : IZR (getPidNucleusCharge pid) <> 0) by (apply not_0_IZR; exact HZ).
  replace (utils.pow3 (1 + z) * 0 *
           (utils.pow2 (IZR (getPidNucleusCharge pid)) /
            IZR (getPidNucleusCharge pid))) with 0
    by (unfold utils.pow2; field; exact Hq).
  apply Rmax_left. lra.
Qed.

End DotGamma.

Lemma X7_no_photon_field_no_loss_witness :
  1e12 * (1 + 1) <> 0 /\ (fun _ : PID => 1%Z) Example.pid0 <> 0%Z /\
  PairProductionLosses.dlnGamma_dt 1 1 1 1 1 1 (fun _ _ _ _ => 1)
    (fun _ => 1%Z) [] Example.pid0 1e12 1 = 0.
Proof.
  assert (HG : 1e12 * (1 + 1) <> 0) by lra.
  assert (HZ : (fun _ : PID => 1%Z) Example.pid0 <> 0%Z) by discriminate.
  split; [exact HG|]. split; [exact HZ|].
  exact (proj2 (X7_no_photon_field_no_loss 1 1 1 1 1 1 (fun _ _ _ _ => 1)
                  (fun _ => 1%Z) Example.pid0 1e12 1 HG HZ)).
Defined.

(** ** More on the continuous-loss integrator *)

(** X8.  The weights (1, 4, 1)/6 integrate a cubic exactly: when the
    summed loss rate of the particle is [a + b z' + c z'^2 + d z'^3] in the
    redshift [z'], [computeDeltaGamma(particle, dz)] is [dt/dz] at the
    current redshift times the integral of that rate over
    [[z - dz, z]]. *)
Theorem X8_computeDeltaGamma_exact_on_cubics
    (self : Evolutor.Evolutor) (particle : Evolutor.Particle)
    (dz a b c d : R)
    (Hrate : forall z',
        Spec.summedLossRate (Evolutor.m_continuousLosses self)
          (Evolutor.getPid particle) (Evolutor.getGamma particle) z'
        = a + b * z' + c * z' ^ 2 + d * z' ^ 3) :
  let z := Evolutor.getRedshift particle in
  let F := fun x => a * x + b * x ^ 2 / 2 + c * x ^ 3 / 3 + d * x ^ 4 / 4 in
  Evolutor.computeDeltaGamma self particle dz =
  Evolutor.dtdz (Evolutor.m_cosmology self) z * (F z - F (z - dz)).
Proof.
  intros z F. rewrite computeDeltaGamma_closed, !Hrate.
  subst F. fold z. cbv beta. field.
Qed.

Lemma X8_computeDeltaGamma_exact_on_cubics_witness :
  (forall z',
      Spec.summedLossRate (Evolutor.m_continuousLosses Example.mild)
        (Evolutor.getPid Example.halfway) (Evolutor.getGamma Example.halfway) z'
      = 0.1 + 0 * z' + 0 * z' ^ 2 + 0 * z' ^ 3) /\
  Evolutor.computeDeltaGamma Example.mild Example.halfway 0.5 =
  Evolutor.dtdz (Evolutor.m_cosmology Example.mild)
    (Evolutor.getRedshift Example.halfway) *
  ((fun x => 0.1 * x + 0 * x ^ 2 / 2 + 0 * x ^ 3 / 3 + 0 * x ^ 4 / 4)
     (Evolutor.getRedshift Example.halfway)
   - (fun x => 0.1 * x + 0 * x ^ 2 / 2 + 0 * x ^ 3 / 3 + 0 * x ^ 4 / 4)
       (Evolutor.getRedshift Example.halfway - 0.5)).
Proof.
  assert (H : forall z',
             Spec.summedLossRate (Evolutor.m_continuousLosses Example.mild)
               (Evolutor.getPid Example.halfway)
               (Evolutor.getGamma Example.halfway) z'
             = 0.1 + 0 * z' + 0 * z' ^ 2 + 0 * z' ^ 3).
  { intros z'. unfold Spec.summedLossRate. cbn. lra. }
  split; [exact H|].
  exact (X8_computeDeltaGamma_exact_on_cubics Example.mild Example.halfway
           0.5 0.1 0 0 0 H).
Defined.

Lemma summedLossRate_app (l1 l2 : list ContinuousLosses) (pid : PID) (G z' : R) :
  Spec.summedLossRate (l1 ++ l2) pid G z' =
  Spec.summedLossRate l1 pid G z' + Spec.summedLossRate l2 pid G z'.
Proof.
  unfold Spec.summedLossRate. induction l1 as [|l l1 IH]; simpl; [lra|].
  rewrite IH. lra.
Qed.

(** X9.  The loss processes contribute additively: for engines that share
    the cosmology, the fractional loss under the processes of one followed
    by those of the other is the sum of the two fractional losses. *)
Theorem X9_computeDeltaGamma_additive
    (self self1 self2 : Evolutor.Evolutor) (particle : Evolutor.Particle)
    (dz : R)
    (Hc1 : Evolutor.m_cosmology self1 = Evolutor.m_cosmology self)
    (Hc2 : Evolutor.m_cosmology self2 = Evolutor.m_cosmology self)
    (Hl : Evolutor.m_continuousLosses self =
          Evolutor.m_continuousLosses self1 ++ Evolutor.m_continuousLosses self2) :
  Evolutor.computeDeltaGamma self particle dz =
  Evolutor.computeDeltaGamma self1 particle dz +
  Evolutor.computeDeltaGamma self2 particle dz.
Proof.
  rewrite !computeDeltaGamma_closed, Hc1, Hc2, Hl, !summedLossRate_app.
  unfold Rdiv. ring.
Qed.

Lemma X9_computeDeltaGamma_additive_witness :
  Evolutor.m_continuousLosses
    (Example.engine 0.5 [Example.constantLoss 0.1; Example.constantLoss 1e5]
       Example.halfway) =
  Evolutor.m_continuousLosses Example.mild ++
  Evolutor.m_continuousLosses Example.steep /\
  Evolutor.computeDeltaGamma
    (Example.engine 0.5 [Example.constantLoss 0.1; Example.constantLoss 1e5]
       Example.halfway) Example.halfway 0.5 =
  Evolutor.computeDeltaGamma Example.mild Example.halfway 0.5 +
  Evolutor.computeDeltaGamma Example.steep Example.halfway 0.5.
Proof.
  split; [reflexivity|].
  apply X9_computeDeltaGamma_additive; reflexivity.
Defined.

(** ** More on the stochastic sampler *)

Lemma ln_one_minus_nonpos (r : R) : 0 <= r < 1 -> ln (1 - r) <= 0.
Proof.
  intros [H0 H1]. destruct (Req_dec r 0) as [->|Hne].
  - replace (1 - 0) with 1 by lra. rewrite ln_1. lra.
  - rewrite <- ln_1. apply Rlt_le, ln_increasing; lra.
Qed.

(** X10.  For a draw of [[0,1)] the sampled interval is never negative. *)
Theorem X10_sample_nonneg
    (self : Evolutor.Evolutor) (particle : Evolutor.Particle) (r : R)
    (Hr : 0 <= r < 1) :
  0 <= Evolutor.computeStochasticRedshiftInterval self particle r.
Proof.
  rewrite stochastic_closed.
  pose proof (ln_one_minus_nonpos r Hr).
  pose proof (Rabs_pos (1 / Evolutor.rate (Evolutor.m_pppcmb self)
                              (Evolutor.getPid particle)
                              (Evolutor.getGamma particle)
                              (Evolutor.getRedshift particle)
                          / Evolutor.dtdz (Evolutor.m_cosmology self)
                              (Evolutor.getRedshift particle))) as Hl.
  unfold Spec.meanFreePath. nra.
Qed.

Lemma X10_sample_nonneg_witness :
  0 <= 0 < 1 /\
  0 <= Evolutor.computeStochasticRedshiftInterval Example.zeroDraw
         Example.proton1 0.
Proof.
  assert (H : 0 <= 0 < 1) by lra.
  split; [exact H|].
  exact (X10_sample_nonneg Example.zeroDraw Example.proton1 0 H).
Defined.




(** X12.  The sample grows with the draw: of two draws of [[0,1)] the
    larger one never gives the shorter interval. *)
Theorem X12_sample_monotone
    (self : Evolutor.Evolutor) (particle : Evolutor.Particle) (r1 r2 : R)
    (H1 : 0 <= r1) (H12 : r1 <= r2) (H2 : r2 < 1) :
  Evolutor.computeStochasticRedshiftInterval self particle r1 <=
  Evolutor.computeStochasticRedshiftInterval self particle r2.
Proof.
  rewrite !stochastic_closed.
  assert (Hl : 0 <= Spec.meanFreePath self particle) by apply Rabs_pos.
  assert (Hln : ln (1 - r2) <= ln (1 - r1)).
  { destruct (Req_dec r1 r2) as [->|Hne]; [lra|].
    apply Rlt_le, ln_increasing; lra. }
  nra.
Qed.

Lemma X12_sample_monotone_witness :
  0 <= 0 /\ 0 <= 0.5 /\ 0.5 < 1 /\
  Evolutor.computeStochasticRedshiftInterval Example.lossless
    Example.proton1 0 <=
  Evolutor.computeStochasticRedshiftInterval Example.lossless
    Example.proton1 0.5.
Proof.
  assert (H1 : 0 <= 0) by lra. assert (H12 : 0 <= 0.5) by lra.
  assert (H2 : 0.5 < 1) by lra.
  split; [exact H1|]. split; [exact H12|]. split; [exact H2|].
  exact (X12_sample_monotone Example.lossless Example.proton1 0 0.5 H1 H12 H2).
Defined.

(** ** What a pass of [Evolutor::run] guarantees *)

Section PassGuarantees.
Import Evolutor.

Variable IsNucleus : Particle -> bool.
Variable rootFinder : (R -> R) -> R -> R -> nat -> R -> R.

Lemma selected_is_active (stack : ParticleStack) (p : Particle) :
  std.deref stack (std.find_if (IsActive IsNucleus) stack) = Some p ->
  IsActive IsNucleus p = true.
Proof.
  intros H.
  assert (Hlt : (std.find_if (IsActive IsNucleus) stack < length stack)%nat).
  { apply nth_error_Some. unfold std.deref in H. rewrite H. discriminate. }
  destruct (find_if_found (IsActive IsNucleus) stack Hlt) as (x & Hx & Ha).
  rewrite H in Hx. injection Hx as ->. exact Ha.
Qed.

(** A pass that goes on to the next one selected a particle, passed both
    assertions and took one of the two branches. *)
Lemma run_body_Continue_inv (self self' : Evolutor) (out out' : OutputFile) :
  run_body IsNucleus rootFinder self out = Continue self' out' ->
  exists particle,
    let it := std.find_if (IsActive IsNucleus) (m_stack self) in
    let z_now := getRedshift particle in
    let rng := snd (call (m_rng self)) in
    let dz_s := computeStochasticRedshiftInterval self particle
                  (fst (call (m_rng self))) in
    let dz_c := computeLossesRedshiftInterval rootFinder self particle in
    let products := finalState (m_pppcmb self) particle (z_now - dz_s) rng in
    std.deref (m_stack self) it = Some particle /\
    out' = out ++ [(particle, 0%Z)] /\
    dz_s > 0 /\ 0 < dz_c <= z_now /\
    ((dz_s > dz_c \/ dz_s > z_now) /\
     self' = set_rng_stack self rng
               (std.assign (m_stack self) it
                  {| getPid := getPid particle;
                     getNow :=
                       {| z := z_now - dz_c;
                          Gamma := getGamma particle *
                                   (1 - computeDeltaGamma self particle dz_c) |} |})
     \/
     ~ (dz_s > dz_c \/ dz_s > z_now) /\
     self' = set_rng_stack self (snd products)
               (std.insert_begin (std.erase (m_stack self) it) (fst products))).
Proof.
  intros Hrun.
  destruct (std.deref (m_stack self)
              (std.find_if (IsActive IsNucleus) (m_stack self)))
    as [particle|] eqn:Hsel.
  2:{ unfold run_body in Hrun. rewrite Hsel in Hrun. discriminate. }
  exists particle. cbv zeta. split; [exact Hsel|].
  set (dz_s := computeStochasticRedshiftInterval self particle
                 (fst (call (m_rng self)))).
  set (dz_c := computeLossesRedshiftInterval rootFinder self particle).
  destruct (Rgt_dec dz_s 0) as [Hs|Hs].
  2:{ rewrite (run_body_assert_dz_s IsNucleus rootFinder self out particle
                 Hsel Hs) in Hrun. discriminate. }
  destruct (Rlt_dec 0 dz_c) as [Hc0|Hc0].
  2:{ unfold run_body in Hrun. rewrite Hsel in Hrun. cbn [call fst snd] in *.
      fold dz_s dz_c in Hrun.
      apply gtb_true in Hs. rewrite Hs in Hrun. cbn [negb] in Hrun.
      replace (dbl.gtb dz_c 0) with false in Hrun
        by (symmetry; apply gtb_false; lra).
      discriminate. }
  destruct (Rle_dec dz_c (getRedshift particle)) as [Hc1|Hc1].
  2:{ unfold run_body in Hrun. rewrite Hsel in Hrun. cbn [call fst snd] in *.
      fold dz_s dz_c in Hrun.
      apply gtb_true in Hs. rewrite Hs in Hrun. cbn [negb] in Hrun.
      replace (dbl.leb dz_c (getRedshift particle)) with false in Hrun
        by (symmetry; apply leb_false; lra).
      rewrite andb_false_r in Hrun. discriminate. }
  assert (Hc : 0 < dz_c <= getRedshift particle) by (split; assumption).
  destruct (Rgt_dec dz_s dz_c) as [Hb|Hb];
    [|destruct (Rgt_dec dz_s (getRedshift particle)) as [Hb'|Hb']].
  - rewrite (run_body_continuous IsNucleus rootFinder self out particle
               Hsel Hs Hc (or_introl Hb)) in Hrun.
    injection Hrun as <- <-. repeat split; try assumption; try apply Hc.
    left. split; [left; exact Hb | reflexivity].
  - rewrite (run_body_continuous IsNucleus rootFinder self out particle
               Hsel Hs Hc (or_intror Hb')) in Hrun.
    injection Hrun as <- <-. repeat split; try assumption; try apply Hc.
    left. split; [right; exact Hb' | reflexivity].
  - assert (Hn : ~ (dz_s > dz_c \/ dz_s > getRedshift particle)) by tauto.
    rewrite (run_body_stochastic IsNucleus rootFinder self out particle
               Hsel Hs Hc Hn) in Hrun.
    injection Hrun as <- <-. repeat split; try assumption; try apply Hc.
    right. split; [exact Hn | reflexivity].
Qed.

End PassGuarantees.

Section CountIf.
Context {A : Type} (pred : A -> bool).

Lemma count_if_app (l1 l2 : list A) :
  std.count_if pred (l1 ++ l2) = (std.count_if pred l1 + std.count_if pred l2)%nat.
Proof.
  induction l1 as [|x l1 IH]; simpl; [reflexivity|].
  destruct (pred x); rewrite IH; reflexivity.
Qed.

Lemma count_if_assign (l : list A) (it : nat) (x y : A) :
  std.deref l it = Some x -> pred x = true -> pred y = false ->
  S (std.count_if pred (std.assign l it y)) = std.count_if pred l.
Proof.
  intros H Hx Hy. destruct (deref_split l it x H) as [E _].
  unfold std.assign. rewrite E at 3. rewrite !count_if_app. simpl.
  rewrite Hx, Hy. lia.
Qed.

Lemma count_if_zero (l : list A) :
  std.count_if pred l = O <-> Forall (fun x => pred x = false) l.
Proof.
  induction l as [|x l IH]; simpl.
  - split; [constructor | reflexivity].
  - destruct (pred x) eqn:Hx; split; intros H.
    + discriminate.
    + inversion H; congruence.
    + constructor; [exact Hx | apply IH; exact H].
    + apply IH. inversion H; assumption.
Qed.

End CountIf.

Section PassConsequences.
Import Evolutor.

Variable IsNucleus : Particle -> bool.
Variable rootFinder : (R -> R) -> R -> R -> nat -> R -> R.

(** X13.  Redshift only goes down.  A pass that goes on selected an active
    particle and either rewrote it in place with a redshift in
    [[0, z_now)], or replaced it by the products of [finalState] called
    with a redshift in [[0, z_now)]. *)
Theorem X13_pass_lowers_redshift
    (self self' : Evolutor) (out out' : OutputFile)
    (Hrun : run_body IsNucleus rootFinder self out = Continue self' out') :
  exists particle newRedshift,
    let it := std.find_if (IsActive IsNucleus) (m_stack self) in
    std.deref (m_stack self) it = Some particle /\
    IsActive IsNucleus particle = true /\
    0 <= newRedshift < getRedshift particle /\
    ((exists newGamma,
        m_stack self' =
        std.assign (m_stack self) it
          {| getPid := getPid particle;
             getNow := {| z := newRedshift; Gamma := newGamma |} |})
     \/
     m_stack self' =
     fst (finalState (m_pppcmb self) particle newRedshift
            (snd (call (m_rng self))))
     ++ std.erase (m_stack self) it).
Proof.
  destruct (run_body_Continue_inv IsNucleus rootFinder self self' out out' Hrun)
    as (particle & Hsel & _ & Hs & Hc & Hbranch).
  cbv zeta in *.
  pose proof (selected_is_active IsNucleus _ _ Hsel) as Hact.
  destruct Hbranch as [[_ ->]|[Hn ->]].
  - exists particle. eexists. cbv zeta.
    split; [exact Hsel|]. split; [exact Hact|]. split; [|left; eexists; reflexivity].
    lra.
  - exists particle. eexists. cbv zeta.
    split; [exact Hsel|]. split; [exact Hact|]. split; [|right; reflexivity].
    split; [|lra].
    assert (~ computeStochasticRedshiftInterval self particle
                (fst (call (m_rng self))) > getRedshift particle) by tauto.
    lra.
Qed.

Lemma full_range_step
    (self : Evolutor) (out : OutputFile) (particle : Particle) :
  let it := std.find_if (IsActive IsNucleus) (m_stack self) in
  let z_now := getRedshift particle in
  let dz_s := computeStochasticRedshiftInterval self particle
                (fst (call (m_rng self))) in
  std.deref (m_stack self) it = Some particle ->
  computeDeltaGamma self particle z_now <= 0.1 ->
  dz_s > z_now ->
  exists self' out' newGamma,
    run_body IsNucleus rootFinder self out = Continue self' out' /\
    std.deref (m_stack self') it =
      Some {| getPid := getPid particle;
              getNow := {| z := 0; Gamma := newGamma |} |} /\
    S (std.count_if (IsActive IsNucleus) (m_stack self')) =
    std.count_if (IsActive IsNucleus) (m_stack self).
Proof.
  intros it z_now dz_s Hsel Hdirect Hsample.
  pose proof (selected_is_active IsNucleus _ _ Hsel) as Hact.
  destruct (IsActive_bounds IsNucleus particle Hact) as (_ & Hz & _).
  fold z_now in Hz.
  pose proof (lossesInterval_direct rootFinder self particle Hdirect) as Hc.
  fold z_now in Hc.
  pose proof (run_body_continuous IsNucleus rootFinder self out particle Hsel)
    as Hrun.
  cbv zeta in Hrun. rewrite Hc in Hrun.
  fold z_now dz_s it in Hrun.
  replace (z_now - z_now) with 0 in Hrun by lra.
  eexists _, _, _. split; [apply Hrun; lra|].
  cbn [set_rng_stack m_stack]. split.
  - apply (deref_assign _ _ particle). exact Hsel.
  - apply (count_if_assign _ _ _ particle); [exact Hsel | exact Hact |].
    unfold IsActive, getRedshift. cbn [getNow z].
    replace (dbl.gtb 0 1e-20) with false by (symmetry; apply gtb_false; lra).
    rewrite andb_false_r. reflexivity.
Qed.


(** X14.  A particle whose whole remaining range is accepted as the
    continuous step is finished by that step: when
    [computeDeltaGamma(particle, z_now) <= 0.1] and the sample exceeds
    [z_now], the pass leaves the particle in place at redshift 0, where it
    is no longer active, and the number of active particles drops by
    one. *)
Theorem X14_full_range_step_retires
    (self : Evolutor) (out : OutputFile) (particle : Particle) :
  let it := std.find_if (IsActive IsNucleus) (m_stack self) in
  let z_now := getRedshift particle in
  let dz_s := computeStochasticRedshiftInterval self particle
                (fst (call (m_rng self))) in
  std.deref (m_stack self) it = Some particle ->
  computeDeltaGamma self particle z_now <= 0.1 ->
  dz_s > z_now ->
  exists self' out' newGamma,
    run_body IsNucleus rootFinder self out = Continue self' out' /\
    std.deref (m_stack self') it =
      Some {| getPid := getPid particle;
              getNow := {| z := 0; Gamma := newGamma |} |} /\
    S (std.count_if (IsActive IsNucleus) (m_stack self')) =
    std.count_if (IsActive IsNucleus) (m_stack self).
Proof. exact (full_range_step self out particle). Qed.

End PassConsequences.

Lemma X13_pass_lowers_redshift_witness :
  exists self' out',
    Evolutor.run_body Example.anyNucleus utils.rootFinder Example.lossless []
      = Evolutor.Continue self' out' /\
    exists particle newRedshift,
      Evolutor.IsActive Example.anyNucleus particle = true /\
      0 <= newRedshift < Evolutor.getRedshift particle.
Proof.
  pose proof lossless_dz_s as Hs. pose proof lossless_dz_c as Hc.
  pose proof (run_body_stochastic Example.anyNucleus utils.rootFinder
                Example.lossless [] Example.proton1 lossless_selected) as Hrun.
  cbv zeta in Hrun. rewrite Hc, proton1_redshift in Hrun.
  eexists _, _. split; [apply Hrun; lra|].
  destruct (X13_pass_lowers_redshift Example.anyNucleus utils.rootFinder
              Example.lossless _ [] _ (Hrun ltac:(lra) ltac:(lra) ltac:(lra)))
    as (particle & newRedshift & _ & Hact & Hz & _).
  exists particle, newRedshift. split; [exact Hact | exact Hz].
Defined.

Lemma X14_full_range_step_retires_witness :
  std.deref (Evolutor.m_stack Example.mild)
    (std.find_if (Evolutor.IsActive Example.anyNucleus)
       (Evolutor.m_stack Example.mild)) = Some Example.halfway /\
  Evolutor.computeDeltaGamma Example.mild Example.halfway
    (Evolutor.getRedshift Example.halfway) <= 0.1 /\
  exists self' out',
    Evolutor.run_body Example.anyNucleus utils.rootFinder Example.mild []
      = Evolutor.Continue self' out' /\
    S (std.count_if (Evolutor.IsActive Example.anyNucleus)
         (Evolutor.m_stack self')) =
    std.count_if (Evolutor.IsActive Example.anyNucleus)
      (Evolutor.m_stack Example.mild).
Proof.
  assert (Hsel : std.deref (Evolutor.m_stack Example.mild)
                   (std.find_if (Evolutor.IsActive Example.anyNucleus)
                      (Evolutor.m_stack Example.mild)) = Some Example.halfway)
    by (apply engine_half_selected; lra).
  assert (Hd : Evolutor.computeDeltaGamma Example.mild Example.halfway
                 (Evolutor.getRedshift Example.halfway) <= 0.1).
  { unfold Example.mild, Example.halfway. rewrite engine_deltaGamma.
    unfold Evolutor.getRedshift. cbn. lra. }
  split; [exact Hsel|]. split; [exact Hd|].
  pose proof (engine_half_dz_s [Example.constantLoss 0.1] Example.halfway) as Hs.
  destruct (X14_full_range_step_retires Example.anyNucleus utils.rootFinder
              Example.mild [] Example.halfway Hsel Hd)
    as (self' & out' & G' & Hrun & _ & Hcount).
  - unfold Example.mild.
    change (Evolutor.getRedshift Example.halfway) with 0.5. lra.
  - exists self', out'. split; [exact Hrun | exact Hcount].
Defined.

(** ** The whole of [Evolutor::run] *)

Section WholeRun.
Import Evolutor.

Variable IsNucleus : Particle -> bool.
Variable rootFinder : (R -> R) -> R -> R -> nat -> R -> R.

Lemma run_loop_inactive (fuel : nat) (self : Evolutor) (out : OutputFile) :
  std.count_if (IsActive IsNucleus) (m_stack self) = O ->
  run_loop IsNucleus rootFinder fuel self out = Finished self out.
Proof. intros H. destruct fuel; cbn [run_loop]; rewrite H; reflexivity. Qed.

Lemma run_loop_Finished (fuel : nat) :
  forall self out self' out',
    run_loop IsNucleus rootFinder fuel self out = Finished self' out' ->
    std.count_if (IsActive IsNucleus) (m_stack self') = O /\
    exists records,
      out' = out ++ records /\ (length records <= fuel)%nat /\
      Forall (fun rec => IsActive IsNucleus (fst rec) = true /\ snd rec = 0%Z)
        records.
Proof.
  induction fuel as [|fuel IH]; intros self out self' out' H;
    cbn [run_loop] in H;
    destruct (0 <? std.count_if (IsActive IsNucleus) (m_stack self))%nat eqn:Hn;
    try discriminate.
  - injection H as <- <-. apply Nat.ltb_ge in Hn. split; [lia|].
    exists []. rewrite app_nil_r. repeat split; [simpl; lia | constructor].
  - destruct (run_body IsNucleus rootFinder self out) as [| |self1 out1] eqn:Hb;
      try discriminate.
    destruct (IH _ _ _ _ H) as (Hcount & records & -> & Hlen & Hall).
    split; [exact Hcount|].
    destruct (run_body_Continue_inv IsNucleus rootFinder _ _ _ _ Hb)
      as (particle & Hsel & -> & _).
    cbv zeta in Hsel.
    exists ((particle, 0%Z) :: records). rewrite <- app_assoc.
    split; [reflexivity|]. split; [simpl; lia|].
    constructor; [|exact Hall].
    split; [|reflexivity]. apply (selected_is_active IsNucleus _ _ Hsel).
  - injection H as <- <-. apply Nat.ltb_ge in Hn. split; [lia|].
    exists []. rewrite app_nil_r. repeat split; [simpl; lia | constructor].
Qed.

(** X15.  When [run] returns, no particle of the population is active, and
    running the engine again on that population does nothing: no pass, no
    record, no draw. *)
Theorem X15_run_ends_without_active_particles
    (fuel : nat) (self self' : Evolutor) (out' : OutputFile)
    (Hrun : run IsNucleus rootFinder fuel self = Finished self' out') :
  Forall (fun p => IsActive IsNucleus p = false) (m_stack self') /\
  forall fuel', run IsNucleus rootFinder fuel' self' = Finished self' [].
Proof.
  destruct (run_loop_Finished fuel self [] self' out' Hrun) as [Hcount _].
  split.
  - apply count_if_zero. exact Hcount.
  - intros fuel'. apply run_loop_inactive. exact Hcount.
Qed.

(** X16.  What [run] writes: at most one record per pass, each of them a
    particle that was active when it was written, and each with the marker
    0 -- in the stochastic branch as in the continuous one. *)
Theorem X16_run_output_records
    (fuel : nat) (self self' : Evolutor) (out' : OutputFile)
    (Hrun : run IsNucleus rootFinder fuel self = Finished self' out') :
  (length out' <= fuel)%nat /\
  Forall (fun rec => IsActive IsNucleus (fst rec) = true /\ snd rec = 0%Z) out'.
Proof.
  destruct (run_loop_Finished fuel self [] self' out' Hrun)
    as (_ & records & -> & Hlen & Hall).
  split; [exact Hlen | exact Hall].
Qed.

End WholeRun.

Lemma mild_run :
  exists self' out',
    Evolutor.run Example.anyNucleus utils.rootFinder 1 Example.mild
      = Evolutor.Finished self' out'.
Proof.
  assert (Hsel : std.deref (Evolutor.m_stack Example.mild)
                   (std.find_if (Evolutor.IsActive Example.anyNucleus)
                      (Evolutor.m_stack Example.mild)) = Some Example.halfway)
    by (apply engine_half_selected; lra).
  pose proof (engine_half_dz_s [Example.constantLoss 0.1] Example.halfway) as Hs.
  destruct (full_range_step Example.anyNucleus utils.rootFinder
              Example.mild [] Example.halfway Hsel)
    as (self' & out' & G' & Hrun & _ & Hcount).
  - unfold Example.mild, Example.halfway. rewrite engine_deltaGamma.
    change (Evolutor.getRedshift (Example.primary 0.5 1e8)) with 0.5. lra.
  - unfold Example.mild.
    change (Evolutor.getRedshift Example.halfway) with 0.5. lra.
  - exists self', out'.
    assert (Hone : std.count_if (Evolutor.IsActive Example.anyNucleus)
                     (Evolutor.m_stack Example.mild) = 1%nat).
    { cbn [Example.mild Example.engine Evolutor.m_stack std.count_if].
      unfold Example.halfway. rewrite primary_active by lra. reflexivity. }
    assert (Hnone : std.count_if (Evolutor.IsActive Example.anyNucleus)
                      (Evolutor.m_stack self') = O) by lia.
    unfold Evolutor.run. cbn [Evolutor.run_loop]. rewrite Hone.
    cbn [Nat.ltb Nat.leb]. rewrite Hrun, Hnone. reflexivity.
Qed.

Lemma X15_run_ends_without_active_particles_witness :
  exists self' out',
    Evolutor.run Example.anyNucleus utils.rootFinder 1 Example.mild
      = Evolutor.Finished self' out' /\
    Forall (fun p => Evolutor.IsActive Example.anyNucleus p = false)
      (Evolutor.m_stack self').
Proof.
  destruct mild_run as (self' & out' & Hrun).
  exists self', out'. split; [exact Hrun|].
  exact (proj1 (X15_run_ends_without_active_particles Example.anyNucleus
                  utils.rootFinder 1 Example.mild self' out' Hrun)).
Defined.

Lemma X16_run_output_records_witness :
  exists self' out',
    Evolutor.run Example.anyNucleus utils.rootFinder 1 Example.mild
      = Evolutor.Finished self' out' /\
    (length out' <= 1)%nat.
Proof.
  destruct mild_run as (self' & out' & Hrun).
  exists self', out'. split; [exact Hrun|].
  exact (proj1 (X16_run_output_records Example.anyNucleus
                  utils.rootFinder 1 Example.mild self' out' Hrun)).
Defined.

(** ** More on [src/simprop.cpp] *)

Lemma deref_assign_other {A : Type} (l : list A) (it j : nat) (x y : A) :
  std.deref l it = Some x -> j <> it ->
  std.deref (std.assign l it y) j = std.deref l j.
Proof.
  intros H Hj. destruct (deref_split l it x H) as [E Hlen].
  unfold std.deref, std.assign. rewrite E at 3.
  destruct (Nat.lt_ge_cases j it) as [Hlt|Hge].
  - rewrite !nth_error_app1 by lia. reflexivity.
  - rewrite !nth_error_app2 by lia. rewrite Hlen.
    destruct (j - it)%nat as [|k] eqn:Ek; [lia | reflexivity].
Qed.

Section SimPropMore.
Import SimProp.

Variable eV : R.
Variable adiabaticRelativeLoss : R -> R -> R.

(** X17.  [Evolve] through a valid iterator rewrites that particle only:
    the population keeps its size and every other particle, the particle
    keeps its identifier, its new redshift is [max(z - 0.01, 0)] -- never
    negative, never above [max(z, 0)] -- and its energy is the old one
    times [adiabaticRelativeLoss(z, new redshift)]. *)
Theorem X17_Evolve_rewrites_one_particle
    (m_particles : ParticleStack) (it : nat) (p : Particle)
    (Hit : std.deref m_particles it = Some p) :
  exists m_particles' p',
    Evolve adiabaticRelativeLoss m_particles it = Some m_particles' /\
    length m_particles' = length m_particles /\
    (forall j, j <> it -> std.deref m_particles' j = std.deref m_particles j) /\
    std.deref m_particles' it = Some p' /\
    getPid p' = getPid p /\
    getZ p' = Rmax (getZ p - 0.01) 0 /\
    0 <= getZ p' <= Rmax (getZ p) 0 /\
    getE p' = getE p * adiabaticRelativeLoss (getZ p) (getZ p').
Proof.
  set (p' := {| getPid := getPid p;
                getNow :=
                  {| z := std.max (z (getNow p) - 0.01) 0;
                     E := E (getNow p) *
                          adiabaticRelativeLoss (z (getNow p))
                            (std.max (z (getNow p) - 0.01) 0) |} |}).
  exists (std.assign m_particles it p'), p'.
  split; [unfold Evolve; rewrite Hit; reflexivity|].
  destruct (totalSteps_assign m_particles it p p' Hit) as [_ Hlen].
  split; [exact Hlen|].
  split; [intros j Hj; exact (deref_assign_other _ _ _ p p' Hit Hj)|].
  split; [exact (deref_assign _ _ p p' Hit)|].
  split; [reflexivity|].
  assert (Hz : getZ p' = Rmax (getZ p - 0.01) 0).
  { unfold p', getZ. cbn [getNow z]. apply std_max_Rmax. }
  split; [exact Hz|]. split; [|reflexivity].
  rewrite Hz. unfold Rmax.
  destruct (Rle_dec (getZ p - 0.01) 0), (Rle_dec (getZ p) 0); lra.
Qed.

(** X18.  [SimProp::run] leaves its loop through the loop condition
    exactly when the population is empty: then no pass is made at all; on
    any other population no amount of passes ends the loop normally. *)
Theorem X18_run_finishes_iff_empty (m_particles : ParticleStack) :
  (exists fuel m_particles',
     run eV adiabaticRelativeLoss fuel m_particles = Finished m_particles')
  <-> m_particles = [].
Proof.
  split.
  - intros (fuel & ps' & H). destruct m_particles as [|p ps]; [reflexivity|].
    exfalso. revert H. apply run_loop_never_finishes. discriminate.
  - intros ->. exists O, []. reflexivity.
Qed.



End SimPropMore.

Lemma X17_Evolve_rewrites_one_particle_witness :
  std.deref
    [ {| SimProp.getPid := Example.pid0;
         SimProp.getNow := {| SimProp.z := 0.015; SimProp.E := 2 |} |} ] 0
  = Some {| SimProp.getPid := Example.pid0;
            SimProp.getNow := {| SimProp.z := 0.015; SimProp.E := 2 |} |} /\
  exists m_particles',
    SimProp.Evolve (fun _ _ => 1)
      [ {| SimProp.getPid := Example.pid0;
           SimProp.getNow := {| SimProp.z := 0.015; SimProp.E := 2 |} |} ] 0
    = Some m_particles' /\
    length m_particles' = 1%nat.
Proof.
  split; [reflexivity|].
  destruct (X17_Evolve_rewrites_one_particle (fun _ _ => 1)
              [ {| SimProp.getPid := Example.pid0;
                   SimProp.getNow :=
                     {| SimProp.z := 0.015; SimProp.E := 2 |} |} ] 0 _ eq_refl)
    as (ps' & p' & HE & Hlen & _).
  exists ps'. split; [exact HE | exact Hlen].
Defined.


(** ** [SimProp::buildInitialStates] *)

Section InitialStatesProperties.
Import SimProp.

Variable seeded : Z -> Evolutor.RandomNumberGenerator.
Variable GetRndRedshift : R -> Z -> R -> R.
Variable GetRndEnergy : R * R -> R -> R.

Lemma buildInitialStates_loop_closed (params : Params) (count : nat) :
  forall rng particles,
    buildInitialStates_loop GetRndRedshift GetRndEnergy params count rng
      particles =
    ({| Evolutor.draws := Evolutor.draws rng;
        Evolutor.position := Evolutor.position rng + 2 * count |},
     particles ++
     map (fun i =>
            {| getPid := pid params;
               getNow :=
                 {| z := GetRndRedshift (snd (redshiftRange params)) 2
                           (Evolutor.draws rng (Evolutor.position rng + 2 * i));
                    E := GetRndEnergy (energyRange params)
                           (Evolutor.draws rng
                              (Evolutor.position rng + 2 * i + 1)) |} |})
         (seq 0 count)).
Proof.
  induction count as [|count IH]; intros rng particles.
  - cbn [buildInitialStates_loop seq map]. rewrite app_nil_r.
    destruct rng as [d pos]. cbn [Evolutor.draws Evolutor.position].
    rewrite Nat.mul_0_r, Nat.add_0_r. reflexivity.
  - cbn [buildInitialStates_loop Evolutor.call]. rewrite IH.
    cbn [Evolutor.draws Evolutor.position].
    f_equal; [f_equal; lia|].
    rewrite <- app_assoc. f_equal. cbn [seq map app].
    f_equal.
    + rewrite Nat.mul_0_r, Nat.add_0_r.
      replace (Evolutor.position rng + 1)%nat with (S (Evolutor.position rng))
        by lia.
      reflexivity.
    + rewrite <- seq_shift, map_map. apply map_ext. intros i.
      replace (S (S (Evolutor.position rng)) + 2 * i)%nat
        with (Evolutor.position rng + 2 * S i)%nat by lia.
      reflexivity.
Qed.

(** X20.  [buildInitialStates] appends [m_size] primaries to the
    population and leaves what was there in front of them; primary [i]
    carries the configured identifier, the redshift
    [GetRndRedshift(redshiftRange.second, 2, r)] for the draw [r] number
    [2 i] from the generator's position and the energy
    [GetRndEnergy(energyRange, r')] for the draw [r'] number [2 i + 1]; the
    generator ends [2 * m_size] draws further. *)
Theorem X20_buildInitialStates_primaries (self : SimProp) :
  let self' := buildInitialStates GetRndRedshift GetRndEnergy self in
  let rng := m_rng self in
  let params := m_params self in
  m_params self' = params /\
  m_size self' = m_size self /\
  Evolutor.draws (m_rng self') = Evolutor.draws rng /\
  Evolutor.position (m_rng self') =
    (Evolutor.position rng + 2 * m_size self)%nat /\
  m_particles self' =
    m_particles self ++
    map (fun i =>
           {| getPid := pid params;
              getNow :=
                {| z := GetRndRedshift (snd (redshiftRange params)) 2
                          (Evolutor.draws rng (Evolutor.position rng + 2 * i));
                   E := GetRndEnergy (energyRange params)
                          (Evolutor.draws rng
                             (Evolutor.position rng + 2 * i + 1)) |} |})
        (seq 0 (m_size self)).
Proof.
  cbv zeta. unfold buildInitialStates.
  rewrite buildInitialStates_loop_closed.
  cbn [m_params m_size m_rng m_particles Evolutor.draws Evolutor.position].
  repeat split.
Qed.

(** X21.  A freshly constructed [SimProp] holds, after
    [buildInitialStates], exactly [nParticles] particles, every one of
    them of the configured species. *)
Theorem X21_constructed_population (params : Params) :
  let self' :=
    buildInitialStates GetRndRedshift GetRndEnergy (construct seeded params) in
  length (m_particles self') = nParticles params /\
  Forall (fun p => getPid p = pid params) (m_particles self').
Proof.
  cbv zeta. unfold buildInitialStates.
  rewrite buildInitialStates_loop_closed.
  cbn [m_particles construct m_params m_size app].
  split.
  - rewrite length_map, length_seq. reflexivity.
  - apply Forall_map, Forall_forall. intros i _. reflexivity.
Qed.

End InitialStatesProperties.

(** ** Pair production across species *)

Section ChargeScaling.
Import PairProductionLosses.

Variables (electronMassC2 alpha electronRadius cLight
           electronMass protonMass : R).
Variable simpsonIntegration : (R -> R) -> R -> R -> nat -> R.
Variable getPidNucleusCharge : PID -> Z.
Variable m_photonFields : list PhotonField.

(** X22.  As the code stands, the pair-production rate of a nucleus is its
    charge times the rate of a species of charge 1 at the same Lorentz
    factor and redshift: the factor [Z^2 / A], with [A] read from the
    charge accessor, scales the rate by [Z] and not by [Z^2] over the mass
    number. *)
Theorem X22_pair_production_scales_with_charge
    (pid pid1 : PID) (G z : R)
    (H1 : getPidNucleusCharge pid1 = 1%Z)
    (HZ : (0 < getPidNucleusCharge pid)%Z) :
  dlnGamma_dt electronMassC2 alpha electronRadius cLight electronMass
    protonMass simpsonIntegration getPidNucleusCharge m_photonFields
    pid G z =
  IZR (getPidNucleusCharge pid) *
  dlnGamma_dt electronMassC2 alpha electronRadius cLight electronMass
    protonMass simpsonIntegration getPidNucleusCharge m_photonFields
    pid1 G z.
Proof.
  unfold dlnGamma_dt. rewrite H1, !std_max_Rmax.
  set (b := utils.pow3 (1 + z) * dotGamma _ _ _ _ _ _ _ _ _).
  assert (Hq : 0 < IZR (getPidNucleusCharge pid)) by (apply IZR_lt; exact HZ).
  set (q := IZR (getPidNucleusCharge pid)) in *.
  replace (b * (utils.pow2 q / q)) with (q * b)
    by (unfold utils.pow2; field; lra).
  replace (b * (utils.pow2 1 / 1)) with b by (unfold utils.pow2; field).
  rewrite <- (Rmult_0_r q) at 1.
  apply RmaxRmult. lra.
Qed.

End ChargeScaling.

Lemma X22_pair_production_scales_with_charge_witness :
  (fun p : PID => p) 1%Z = 1%Z /\ (0 < (fun p : PID => p) 26%Z)%Z /\
  PairProductionLosses.dlnGamma_dt 1 1 1 1 1 1 (fun _ _ _ _ => 1)
    (fun p => p) [] 26%Z 1e12 1 =
  IZR 26 *
  PairProductionLosses.dlnGamma_dt 1 1 1 1 1 1 (fun _ _ _ _ => 1)
    (fun p => p) [] 1%Z 1e12 1.
Proof.
  assert (H1 : (fun p : PID => p) 1%Z = 1%Z) by reflexivity.
  assert (HZ : (0 < (fun p : PID => p) 26%Z)%Z) by reflexivity.
  split; [exact H1|]. split; [exact HZ|].
  exact (X22_pair_production_scales_with_charge 1 1 1 1 1 1
           (fun _ _ _ _ => 1) (fun p => p) [] 26%Z 1%Z 1e12 1 H1 HZ).
Defined.

(** ** The continuous branch does not check the loss it applies *)

Section UncheckedLoss.
Import Evolutor Example.





End UncheckedLoss.

